(** * CSVExcelModifier: a table editor over pandas data frames

    A shallow embedding of [src/app.py].  The class [CSVExcelModifier] keeps a
    log of the operations it performed; every operation takes the current
    data frame and returns the next one.  Errors raised inside an operation
    are caught by the operation itself and shown on the Streamlit page.

    The data frame library is not part of the repository.  The pandas
    primitives the methods call ([drop_duplicates], boolean-mask selection,
    [concat], [drop], [sort_values], [fillna]) are modelled here from their
    documented behaviour, on cells that are null, integers, strings or
    booleans; floating-point cells are not modelled. *)

From Stdlib Require Import List ZArith String Ascii Bool Arith Lia.
From Stdlib Require Import Permutation DecimalString.
Import ListNotations.

Local Open Scope string_scope.
Local Open Scope list_scope.

(** String concatenation, as in an f-string. *)
Infix "+++" := String.append (at level 60, right associativity).

(** ** Cells *)

(** A cell of a table, a rule's value, or a value of a row to add: what
    [json.loads] and [read_csv] produce for scalars.  [SNull] stands for
    both [None] and [NaN]. *)
Inductive scalar : Type :=
| SNull
| SInt (n : Z)
| SStr (s : string)
| SBool (b : bool).

Definition isna (v : scalar) : bool :=
  match v with SNull => true | _ => false end.

Definition notna (v : scalar) : bool := negb (isna v).

(** Python's numbers: a [bool] is an [int]. *)
Definition as_number (v : scalar) : option Z :=
  match v with
  | SInt n => Some n
  | SBool true => Some 1%Z
  | SBool false => Some 0%Z
  | _ => None
  end.

(** Equality of two cells as [drop_duplicates] sees it: nulls are equal to
    each other, everything else is Python's [==]. *)
Definition scalar_same (a b : scalar) : bool :=
  match a, b with
  | SNull, SNull => true
  | SStr s, SStr t => String.eqb s t
  | _, _ =>
      match as_number a, as_number b with
      | Some x, Some y => Z.eqb x y
      | _, _ => false
      end
  end.

Fixpoint row_same (r1 r2 : list scalar) : bool :=
  match r1, r2 with
  | [], [] => true
  | a :: r1', b :: r2' => scalar_same a b && row_same r1' r2'
  | _, _ => false
  end.

(** ** Exceptions and results *)

Inductive exn : Type :=
| KeyError (key : scalar)
| TypeError.

Inductive result (A : Type) : Type :=
| Ok (a : A)
| Raise (e : exn).
Arguments Ok {A} a.
Arguments Raise {A} e.

Definition bind {A B : Type} (r : result A) (k : A -> result B) : result B :=
  match r with
  | Ok a => k a
  | Raise e => Raise e
  end.

Notation "x <- r ;; k" := (bind r (fun x => k))
  (at level 61, r at next level, right associativity).

Fixpoint mapM {A B : Type} (f : A -> result B) (l : list A) : result (list B) :=
  match l with
  | [] => Ok []
  | a :: l' => b <- f a ;; bs <- mapM f l' ;; Ok (b :: bs)
  end.

(** ** Data frames *)

(** A data frame: the column labels, and the rows in order, each with its
    index label and its cells, one per column. *)
Record DataFrame : Type := mkDataFrame {
  columns : list string;
  rows : list (Z * list scalar)
}.

(** [len(df)] *)
Definition len (df : DataFrame) : nat := List.length (rows df).

(** [columns.get_loc(c)]: the position of a column label. *)
Fixpoint get_loc (c : string) (cols : list string) : option nat :=
  match cols with
  | [] => None
  | c' :: cols' =>
      if String.eqb c c' then Some 0
      else option_map S (get_loc c cols')
  end.

Definition cell (k : nat) (r : Z * list scalar) : scalar := nth k (snd r) SNull.

(** [df[column]]: the cells of a column in row order, or [KeyError].  When
    several columns carry the label, pandas returns a table of them and not
    a column; the first of them stands for it here, and the properties that
    read a column by its label are stated for tables with distinct column
    names. *)
Definition getitem (df : DataFrame) (column : string) : result (list scalar) :=
  match get_loc column (columns df) with
  | Some k => Ok (map (cell k) (rows df))
  | None => Raise (KeyError (SStr column))
  end.

(** [df[mask]]: the rows at which the boolean mask is true, labels kept.
    The masks used below are computed from [df] itself, so they are as long
    as [df] and aligned with it. *)
Fixpoint select {A : Type} (mask : list bool) (l : list A) : list A :=
  match mask, l with
  | b :: mask', a :: l' => if b then a :: select mask' l' else select mask' l'
  | _, _ => []
  end.

Definition getitem_mask (df : DataFrame) (mask : list bool) : DataFrame :=
  {| columns := columns df; rows := select mask (rows df) |}.

(** ** The modifier and the page *)

Record LogEntry : Type := mkLogEntry {
  action : string;
  details : string
}.

(** A drawing call made on the current matplotlib figure. *)
Inductive plt_call : Type :=
| plt_bar (xs ys : list scalar)
| plot_value_counts (kind : string) (xs : list scalar)
| plt_plot (xs ys : list scalar)
| plt_xlabel (s : string)
| plt_ylabel (s : string)
| plt_title (s : string).

(** What an operation shows on the page: [st.error(f"{prefix}{e}")], with the
    exception kept as it was raised, or [st.pyplot(plt)] with the calls made
    on the figure. *)
Inductive st_event : Type :=
| st_error (prefix : string) (e : option exn)
| st_pyplot (figure : list plt_call).

(** [self.log] of the modifier, and the page. *)
Record State : Type := mkState {
  log : list LogEntry;
  page : list st_event
}.

(** [self.log_action(action)] *)
Definition log_action (s : State) (entry : LogEntry) : State :=
  {| log := log s ++ [entry]; page := page s |}.

Definition st_show (s : State) (ev : st_event) : State :=
  {| log := log s; page := page s ++ [ev] |}.

(** ** Formatting *)

Definition str_of_Z (z : Z) : string := NilZero.string_of_int (Z.to_int z).

Definition str_of_nat (n : nat) : string := str_of_Z (Z.of_nat n).

(** [repr] of a string, for strings without quotes, backslashes or control
    characters. *)
Definition repr_str (s : string) : string := "'" +++ s +++ "'".

Definition repr_scalar (v : scalar) : string :=
  match v with
  | SNull => "None"
  | SInt n => str_of_Z n
  | SStr s => repr_str s
  | SBool true => "True"
  | SBool false => "False"
  end.

Fixpoint join (sep : string) (l : list string) : string :=
  match l with
  | [] => ""
  | [x] => x
  | x :: l' => x +++ sep +++ join sep l'
  end.

Definition repr_list {A : Type} (f : A -> string) (l : list A) : string :=
  "[" +++ join ", " (map f l) +++ "]".

Definition repr_dict (d : list (string * scalar)) : string :=
  "{" +++ join ", " (map (fun kv => repr_str (fst kv) +++ ": " +++ repr_scalar (snd kv)) d) +++ "}".

(** ** remove_duplicates *)

(** [df.duplicated()] with [keep="first"]: a row is marked when an earlier
    row has the same cells. *)
Fixpoint duplicated_from (seen : list (list scalar)) (rs : list (Z * list scalar)) : list bool :=
  match rs with
  | [] => []
  | r :: rs' =>
      existsb (row_same (snd r)) seen :: duplicated_from (seen ++ [snd r]) rs'
  end.

Definition duplicated (df : DataFrame) : list bool := duplicated_from [] (rows df).

(** [df.drop_duplicates()] *)
Definition drop_duplicates (df : DataFrame) : DataFrame :=
  getitem_mask df (map negb (duplicated df)).

Definition remove_duplicates (s : State) (df : DataFrame) : DataFrame * State :=
  let initial_count := len df in
  let df_cleaned := drop_duplicates df in
  let final_count := len df_cleaned in
  (df_cleaned,
   log_action s
     {| action := "remove_duplicates";
        details := "Removed " +++ str_of_Z (Z.of_nat initial_count - Z.of_nat final_count)
                   +++ " duplicate rows." |}).

(** ** apply_rules *)

Record Rule : Type := mkRule {
  column : string;
  condition : string;
  value : scalar
}.

Definition repr_rule (r : Rule) : string :=
  "{'column': " +++ repr_str (column r) +++ ", 'condition': " +++ repr_str (condition r)
  +++ ", 'value': " +++ repr_scalar (value r) +++ "}".

Inductive cmp_op : Type := op_gt | op_lt | op_eq.

(** One cell of [series <op> value].  A null on either side compares false;
    numbers compare as numbers and strings lexicographically; [==] between a
    number and a string is false, while [>] and [<] between them raise
    [TypeError].  pandas raises that error from the column's dtype even when
    the column is empty; here it is raised by the first cell that cannot be
    compared. *)
Definition compare_cell (op : cmp_op) (x v : scalar) : result bool :=
  if isna x || isna v then Ok false
  else
    match x, v with
    | SStr a, SStr b =>
        Ok match op with
           | op_gt => String.ltb b a
           | op_lt => String.ltb a b
           | op_eq => String.eqb a b
           end
    | _, _ =>
        match as_number x, as_number v with
        | Some a, Some b =>
            Ok match op with
               | op_gt => Z.ltb b a
               | op_lt => Z.ltb a b
               | op_eq => Z.eqb a b
               end
        | _, _ =>
            match op with
            | op_eq => Ok false
            | _ => Raise TypeError
            end
        end
    end.

(** [df[df[column] <op> value]] *)
Definition filter_by (df : DataFrame) (column : string) (op : cmp_op) (v : scalar)
  : result DataFrame :=
  series <- getitem df column ;;
  mask <- mapM (fun x => compare_cell op x v) series ;;
  Ok (getitem_mask df mask).

(** The body of the loop for one rule: the data frame bound to [df] after
    it, or the exception it raises. *)
Definition apply_rule (df : DataFrame) (rule : Rule) : result DataFrame :=
  if String.eqb (condition rule) "greater_than" then filter_by df (column rule) op_gt (value rule)
  else if String.eqb (condition rule) "less_than" then filter_by df (column rule) op_lt (value rule)
  else if String.eqb (condition rule) "equals" then filter_by df (column rule) op_eq (value rule)
  else Ok df.

(** The [for] loop inside [try].  The local variable [df] is rebound by
    every rule that succeeds; the loop ends with the value [df] has then, and
    with the exception if one was raised. *)
Fixpoint apply_rules_loop (df : DataFrame) (rules : list Rule) : DataFrame * option exn :=
  match rules with
  | [] => (df, None)
  | rule :: rules' =>
      match apply_rule df rule with
      | Ok df' => apply_rules_loop df' rules'
      | Raise e => (df, Some e)
      end
  end.

Definition apply_rules (s : State) (df : DataFrame) (rules : list Rule) : DataFrame * State :=
  match apply_rules_loop df rules with
  | (df', None) =>
      (df', log_action s
              {| action := "apply_rules";
                 details := "Applied rules: " +++ repr_list repr_rule rules
                            +++ ". Remaining rows: " +++ str_of_nat (len df') |})
  | (df', Some e) => (df', st_show s (st_error "Error applying rules: " (Some e)))
  end.

(** ** add_or_delete_rows *)

(** A row operation as the interface documents it:
    [{"action": "add", "row_data": {...}}] or [{"action": "delete", "index": i}];
    [op_delete None] has no index (or a null one), and [op_other] carries any
    other action. *)
Inductive Operation : Type :=
| op_add (row_data : list (string * scalar))
| op_delete (index : option Z)
| op_other (name : string).

Definition repr_operation (o : Operation) : string :=
  match o with
  | op_add row_data => "{'action': 'add', 'row_data': " +++ repr_dict row_data +++ "}"
  | op_delete (Some i) => "{'action': 'delete', 'index': " +++ str_of_Z i +++ "}"
  | op_delete None => "{'action': 'delete'}"
  | op_other name => "{'action': " +++ repr_str name +++ "}"
  end.

(** [pd.DataFrame([row_data])]: one row, labelled 0, with the keys of the
    mapping as columns. *)
Definition DataFrame_of_record (row_data : list (string * scalar)) : DataFrame :=
  {| columns := map fst row_data; rows := [(0%Z, map snd row_data)] |}.

(** The cells of a row of a frame with columns [from], laid out on the
    columns [to]; a column the frame does not have is null. *)
Definition reindex_cells (from to : list string) (cells : list scalar) : list scalar :=
  map (fun c => match get_loc c from with
                | Some k => nth k cells SNull
                | None => SNull
                end) to.

Definition range_index {A : Type} (l : list A) : list (Z * A) :=
  combine (map Z.of_nat (seq 0 (List.length l))) l.

(** [pd.concat([a, b], ignore_index=True)]: the rows of [a] then those of
    [b], on the union of the columns, relabelled 0, 1, 2, ...  This is the
    result for frames whose column names are distinct; pandas refuses to
    align columns on a repeated name.  A column of integers that receives a
    null becomes a column of floats, which holds the integers up to 2^53
    unchanged. *)
Definition concat_ignore_index (a b : DataFrame) : DataFrame :=
  let cols :=
    columns a ++ filter (fun c => match get_loc c (columns a) with
                                  | Some _ => false
                                  | None => true
                                  end) (columns b) in
  {| columns := cols;
     rows := range_index
               (map (fun r => reindex_cells (columns a) cols (snd r)) (rows a)
                ++ map (fun r => reindex_cells (columns b) cols (snd r)) (rows b)) |}.

(** [df.drop(label)]: the rows whose index label is not [label]; [KeyError]
    when no row carries the label. *)
Definition drop (df : DataFrame) (label : Z) : result DataFrame :=
  if existsb (fun r => Z.eqb (fst r) label) (rows df)
  then Ok {| columns := columns df;
             rows := filter (fun r => negb (Z.eqb (fst r) label)) (rows df) |}
  else Raise (KeyError (SInt label)).

(** The body of the loop for one operation. *)
Definition apply_operation (df : DataFrame) (operation : Operation) : result DataFrame :=
  match operation with
  | op_add row_data => Ok (concat_ignore_index df (DataFrame_of_record row_data))
  | op_delete index_to_delete =>
      match index_to_delete with
      | Some i =>
          if (0 <=? i)%Z && (i <? Z.of_nat (len df))%Z then drop df i else Ok df
      | None => Ok df
      end
  | op_other _ => Ok df
  end.

(** The [for] loop inside [try], with [df] rebound by every operation that
    succeeds. *)
Fixpoint add_or_delete_rows_loop (df : DataFrame) (operations : list Operation)
  : DataFrame * option exn :=
  match operations with
  | [] => (df, None)
  | operation :: operations' =>
      match apply_operation df operation with
      | Ok df' => add_or_delete_rows_loop df' operations'
      | Raise e => (df, Some e)
      end
  end.

Definition add_or_delete_rows (s : State) (df : DataFrame) (operations : list Operation)
  : DataFrame * State :=
  match add_or_delete_rows_loop df operations with
  | (df', None) =>
      (df', log_action s
              {| action := "add_or_delete_rows";
                 details := "Performed operations: " +++ repr_list repr_operation operations
                            +++ ". Final rows: " +++ str_of_nat (len df') |})
  | (df', Some e) => (df', st_show s (st_error "Error performing operations: " (Some e)))
  end.

(** ** sort_data *)

(** Python's [<=] between two cells that can be compared. *)
Definition scalar_le (a b : scalar) : bool :=
  match a, b with
  | SStr s, SStr t => String.leb s t
  | _, _ =>
      match as_number a, as_number b with
      | Some x, Some y => Z.leb x y
      | _, _ => false
      end
  end.

Definition is_number (v : scalar) : bool :=
  match as_number v with Some _ => true | None => false end.

Definition is_str (v : scalar) : bool :=
  match v with SStr _ => true | _ => false end.

(** The keys a sort can order: all numbers, or all strings.  Sorting numbers
    mixed with strings raises [TypeError]. *)
Definition comparable_keys (ks : list scalar) : bool :=
  forallb is_number ks || forallb is_str ks.

(** [numpy.argsort(kind="quicksort")], the kind [sort_values] uses when none
    is given: from the keys, the positions in sorted order.  pandas documents
    this kind as not stable, so which of two equal keys comes first is left
    to the implementation; it is a parameter of the model. *)
Definition argsort_fn : Type := list scalar -> list nat.

(** [a[indexer]] *)
Definition take {A : Type} (d : A) (a : list A) (indexer : list nat) : list A :=
  map (fun i => nth i a d) indexer.

(** pandas' [nargsort] with [na_position="last"]: the nulls are set aside,
    the other keys are sorted (for a descending sort: reversed, sorted, and
    the result reversed), and the nulls come last. *)
Definition nargsort (argsort : argsort_fn) (items : list scalar) (ascending : bool)
  : list nat :=
  let idx := seq 0 (List.length items) in
  let mask := map isna items in
  let non_nans := select (map negb mask) items in
  let non_nan_idx := select (map negb mask) idx in
  let nan_idx := select mask idx in
  let non_nans := if ascending then non_nans else rev non_nans in
  let non_nan_idx := if ascending then non_nan_idx else rev non_nan_idx in
  let indexer := take 0 non_nan_idx (argsort non_nans) in
  let indexer := if ascending then indexer else rev indexer in
  indexer ++ nan_idx.

(** [df.sort_values(by=column, ascending=ascending)] *)
Definition sort_values (argsort : argsort_fn) (df : DataFrame) (by_ : string)
  (ascending : bool) : result DataFrame :=
  k <- getitem df by_ ;;
  if comparable_keys (filter notna k)
  then Ok {| columns := columns df;
             rows := take (0%Z, []) (rows df) (nargsort argsort k ascending) |}
  else Raise TypeError.

Definition sort_data (argsort : argsort_fn) (s : State) (df : DataFrame)
  (column : string) (ascending : bool) : DataFrame * State :=
  match sort_values argsort df column ascending with
  | Ok df_sorted =>
      (df_sorted,
       log_action s
         {| action := "sort_data";
            details := "Sorted data by " +++ column +++ " in "
                       +++ (if ascending then "ascending" else "descending")
                       +++ " order." |})
  | Raise e => (df, st_show s (st_error "Error sorting data: " (Some e)))
  end.

(** ** fill_missing_values *)

(** Forward fill of one column: a null takes the last value seen above it,
    and stays null when there is none. *)
Fixpoint ffill_from (last : scalar) (col : list scalar) : list scalar :=
  match col with
  | [] => []
  | v :: col' =>
      let v' := if isna v then last else v in
      v' :: ffill_from v' col'
  end.

Definition ffill_column (col : list scalar) : list scalar := ffill_from SNull col.

(** Backward fill: the same from the bottom of the column up. *)
Definition bfill_column (col : list scalar) : list scalar :=
  rev (ffill_column (rev col)).

(** A frame rebuilt column by column: column [k] of the result is [f]
    applied to column [k] of [df]. *)
Definition map_columns (f : list scalar -> list scalar) (df : DataFrame) : DataFrame :=
  let ncols := List.length (columns df) in
  let filled := map (fun k => f (map (cell k) (rows df))) (seq 0 ncols) in
  {| columns := columns df;
     rows := map (fun ir => (snd ir, map (fun col => nth (fst ir) col SNull) filled))
                 (combine (seq 0 (len df)) (map fst (rows df))) |}.

(** [df.fillna(method=...)] and [df.fillna(value)], in the pandas releases
    whose [fillna] takes [method]. *)
Definition fillna_method (method : string) (df : DataFrame) : result DataFrame :=
  if String.eqb method "ffill" then Ok (map_columns ffill_column df)
  else Ok (map_columns bfill_column df).

Definition fillna_value (v : scalar) (df : DataFrame) : result DataFrame :=
  Ok {| columns := columns df;
        rows := map (fun r => (fst r, map (fun x => if isna x then v else x) (snd r)))
                    (rows df) |}.

(** The statements inside [try] up to the logging: the frame bound to
    [df_filled].  [value] is [SNull] for Python's [None]. *)
Definition fill_missing_values_body (df : DataFrame) (method : string) (value : scalar)
  : result DataFrame :=
  if String.eqb method "ffill" then fillna_method "ffill" df
  else if String.eqb method "bfill" then fillna_method "bfill" df
  else if String.eqb method "value" && notna value then fillna_value value df
  else Ok df.

Definition fill_missing_values (s : State) (df : DataFrame) (method : string)
  (value : scalar) : DataFrame * State :=
  match fill_missing_values_body df method value with
  | Ok df_filled =>
      (df_filled,
       log_action s
         {| action := "fill_missing_values";
            details := "Filled missing values using " +++ method +++ " method." |})
  | Raise e => (df, st_show s (st_error "Error filling missing values: " (Some e)))
  end.

(** ** create_chart *)

(** The plotting library: what a drawing call does with its data is outside
    the repository, so the call is a parameter of the model: it returns, or
    raises. *)
Definition backend_fn : Type := plt_call -> result unit.

(** The statements of [create_chart] run on the modifier, the page and the
    current figure; an exception stops them and keeps what was done. *)
Definition Chart (A : Type) : Type :=
  State * list plt_call -> result A * (State * list plt_call).

Definition ret {A : Type} (a : A) : Chart A := fun st => (Ok a, st).

Definition then_ {A B : Type} (m : Chart A) (k : A -> Chart B) : Chart B :=
  fun st =>
    match m st with
    | (Ok a, st') => k a st'
    | (Raise e, st') => (Raise e, st')
    end.

Notation "x <~ m ;; k" := (then_ m (fun x => k))
  (at level 61, m at next level, right associativity).
Notation "m ;;; k" := (then_ m (fun _ => k))
  (at level 61, right associativity).

Definition lift {A : Type} (r : result A) : Chart A := fun st => (r, st).

(** [plt.figure(figsize=(10, 6))]: a new, empty current figure. *)
Definition plt_figure : Chart unit := fun st => (Ok tt, (fst st, [])).

Definition plt (backend : backend_fn) (c : plt_call) : Chart unit :=
  fun st =>
    match backend c with
    | Ok _ => (Ok tt, (fst st, snd st ++ [c]))
    | Raise e => (Raise e, st)
    end.

Definition st_errorC (msg : string) : Chart unit :=
  fun st => (Ok tt, (st_show (fst st) (st_error msg None), snd st)).

Definition st_pyplotC : Chart unit :=
  fun st => (Ok tt, (st_show (fst st) (st_pyplot (snd st)), snd st)).

Definition log_actionC (entry : LogEntry) : Chart unit :=
  fun st => (Ok tt, (log_action (fst st) entry, snd st)).

(** Python's truth value of [y_column]: [None] and the empty string are
    false. *)
Definition truthy (y_column : option string) : bool :=
  match y_column with
  | Some y => negb (String.eqb y "")
  | None => false
  end.

Definition or_empty (y_column : option string) : string :=
  match y_column with Some y => y | None => "" end.

(** The statements inside [try]. *)
Definition create_chart_body (backend : backend_fn) (df : DataFrame)
  (chart_type x_column : string) (y_column : option string) : Chart unit :=
  let y := or_empty y_column in
  plt_figure ;;;
  (if String.eqb chart_type "Bar Chart" then
     (if truthy y_column then
        xs <~ lift (getitem df x_column) ;;
        ys <~ lift (getitem df y) ;;
        plt backend (plt_bar xs ys) ;;;
        plt backend (plt_ylabel y)
      else
        xs <~ lift (getitem df x_column) ;;
        plt backend (plot_value_counts "bar" xs) ;;;
        plt backend (plt_ylabel "Count")) ;;;
     plt backend (plt_xlabel x_column) ;;;
     plt backend (plt_title ("Bar Chart: " +++ x_column +++ " vs "
                             +++ (if truthy y_column then y else "Count")))
   else if String.eqb chart_type "Line Chart" && truthy y_column then
     xs <~ lift (getitem df x_column) ;;
     ys <~ lift (getitem df y) ;;
     plt backend (plt_plot xs ys) ;;;
     plt backend (plt_xlabel x_column) ;;;
     plt backend (plt_ylabel y) ;;;
     plt backend (plt_title ("Line Chart: " +++ x_column +++ " vs " +++ y))
   else if String.eqb chart_type "Pie Chart" then
     xs <~ lift (getitem df x_column) ;;
     plt backend (plot_value_counts "pie" xs) ;;;
     plt backend (plt_ylabel "") ;;;
     plt backend (plt_title ("Pie Chart: " +++ x_column))
   else
     st_errorC "Invalid chart type or missing column(s). Please check your inputs.") ;;;
  st_pyplotC ;;;
  log_actionC
    {| action := "create_chart";
       details := "Created " +++ chart_type +++ " using " +++ x_column +++ " "
                  +++ (if truthy y_column then "and " +++ y else "") +++ "." |}.

Definition create_chart (backend : backend_fn) (s : State) (df : DataFrame)
  (chart_type x_column : string) (y_column : option string) : State :=
  match create_chart_body backend df chart_type x_column y_column (s, []) with
  | (Ok _, st) => fst st
  | (Raise e, st) => st_show (fst st) (st_error "Error creating chart: " (Some e))
  end.

(** [save_log] *)
Definition save_log (s : State) : list LogEntry := log s.

(** ** remove_empty_rows *)

(** [df.dropna()]: the rows without a null cell, labels kept. *)
Definition dropna (df : DataFrame) : DataFrame :=
  {| columns := columns df;
     rows := filter (fun r => forallb notna (snd r)) (rows df) |}.

Definition remove_empty_rows (s : State) (df : DataFrame) : DataFrame * State :=
  let initial_count := len df in
  let df_cleaned := dropna df in
  let final_count := len df_cleaned in
  (df_cleaned,
   log_action s
     {| action := "remove_empty_rows";
        details := "Removed " +++ str_of_Z (Z.of_nat initial_count - Z.of_nat final_count)
                   +++ " empty rows." |}).

(** ** rename_columns *)

(** [column_mapping[c]] of a mapping read from a JSON object whose names
    and values are strings. *)
Fixpoint dict_get (column_mapping : list (string * string)) (c : string) : option string :=
  match column_mapping with
  | [] => None
  | (old, new) :: rest => if String.eqb c old then Some new else dict_get rest c
  end.

Definition renamed (column_mapping : list (string * string)) (c : string) : string :=
  match dict_get column_mapping c with
  | Some new => new
  | None => c
  end.

(** [df.rename(columns=column_mapping)]: a column named in the mapping
    takes its new name, the others keep theirs; a name of the mapping that
    is no column is ignored. *)
Definition rename (df : DataFrame) (column_mapping : list (string * string))
  : result DataFrame :=
  Ok {| columns := map (renamed column_mapping) (columns df); rows := rows df |}.

Definition rename_columns (s : State) (df : DataFrame)
  (column_mapping : list (string * string)) : DataFrame * State :=
  match rename df column_mapping with
  | Ok df_renamed =>
      (df_renamed,
       log_action s
         {| action := "rename_columns";
            details := "Renamed columns: "
                       +++ repr_dict (map (fun kv => (fst kv, SStr (snd kv))) column_mapping)
                       +++ "." |})
  | Raise e => (df, st_show s (st_error "Error renaming columns: " (Some e)))
  end.

(** ** main: the "Create Chart" branch *)

(** The chart type, the x column and the y choice come from select boxes;
    the y box is shown for bar and line charts only, and its choice ["None"]
    stands for no column. *)
Definition main_create_chart (backend : backend_fn) (s : State) (df : DataFrame)
  (chart_type x_column y_choice : string) : State :=
  let y_column :=
    if String.eqb chart_type "Bar Chart" || String.eqb chart_type "Line Chart"
    then (if String.eqb y_choice "None" then None else Some y_choice)
    else None in
  create_chart backend s df chart_type x_column y_column.

(** * Vocabulary of the properties *)

(** ** Sample tables *)

(** A modifier that has logged nothing, on an empty page. *)
Definition empty_state : State := {| log := []; page := [] |}.

(** Column [A] = 5, 15, 25, as read from a file: rows labelled 0, 1, 2. *)
Definition table_A : DataFrame :=
  {| columns := ["A"];
     rows := [(0%Z, [SInt 5]); (1%Z, [SInt 15]); (2%Z, [SInt 25])] |}.

(** The table of the duplicate-removal scenario. *)
Definition table_AB : DataFrame :=
  {| columns := ["A"; "B"];
     rows := [(0%Z, [SInt 1; SStr "x"]); (1%Z, [SInt 1; SStr "x"]);
              (2%Z, [SInt 2; SStr "y"])] |}.

(** ** Predicates and reference functions *)

(** The rows [drop_duplicates] keeps when the cells in [seen] came before. *)
Definition kept_from (seen : list (list scalar)) (rs : list (Z * list scalar))
  : list (Z * list scalar) :=
  select (map negb (duplicated_from seen rs)) rs.

(** The call takes the last branch: method ["value"] without a value, or a
    method that is none of the three. *)
Definition fills_nothing (method : string) (value : scalar) : Prop :=
  (method = "value" /\ value = SNull) \/
  (method <> "ffill" /\ method <> "bfill" /\ method <> "value").

(** The comparison a rule asks for, when its condition is one of the three. *)
Definition rule_op (rule : Rule) : option cmp_op :=
  if String.eqb (condition rule) "greater_than" then Some op_gt
  else if String.eqb (condition rule) "less_than" then Some op_lt
  else if String.eqb (condition rule) "equals" then Some op_eq
  else None.

(** A row satisfies a rule: the rule's column exists and the comparison of
    the row's cell with the rule's value is true. *)
Definition satisfies (cols : list string) (r : Z * list scalar) (rule : Rule) : Prop :=
  forall op, rule_op rule = Some op ->
    exists k, get_loc (column rule) cols = Some k /\
              compare_cell op (cell k r) (value rule) = Ok true.

(** Rules on the column the sample table has, and on one it lacks. *)
Definition rule_A_gt_10 : Rule := mkRule "A" "greater_than" (SInt 10).
Definition rule_A_gt_20 : Rule := mkRule "A" "greater_than" (SInt 20).
Definition rule_Z_lt_1 : Rule := mkRule "Z" "less_than" (SInt 1).

(** The deletion the interface describes: the row at position [i] goes. *)
Definition delete_position {A : Type} (i : nat) (l : list A) : list A :=
  firstn i l ++ skipn (S i) l.

(** The request matches no chart: an unrecognised chart type, or a line
    chart without a y column. *)
Definition invalid_combination (chart_type : string) (y_column : option string) : bool :=
  negb (String.eqb chart_type "Bar Chart")
  && negb (String.eqb chart_type "Line Chart" && truthy y_column)
  && negb (String.eqb chart_type "Pie Chart").

(** The log entry of a chart request. *)
Definition chart_entry (chart_type x_column : string) (y_column : option string)
  : LogEntry :=
  {| action := "create_chart";
     details := "Created " +++ chart_type +++ " using " +++ x_column +++ " "
                +++ (if truthy y_column then "and " +++ or_empty y_column else "")
                +++ "." |}.

(** Case analysis on every column lookup and drawing call of a chart. *)
Ltac chart_cases :=
  repeat match goal with
         | |- context [match ?b ?c with Ok _ => _ | Raise _ => _ end] =>
             destruct (b c); simpl
         | |- context [match getitem ?df ?c with Ok _ => _ | Raise _ => _ end] =>
             destruct (getitem df c); simpl
         end.

(** Case analysis on the column lookups in [df] and on the calls of
    [backend], and on nothing else. *)
Ltac chart_calls backend df :=
  repeat match goal with
         | |- context [backend ?c] => destruct (backend c); simpl
         | |- context [getitem df ?c] => destruct (getitem df c); simpl
         end.

(** [df.iat[i, k]]: the cell at row position [i] and column position [k]. *)
Definition iat (df : DataFrame) (i k : nat) : scalar :=
  cell k (nth i (rows df) (0%Z, [])).

(** Columns with nulls at the top, in the middle and below a value. *)
Definition table_gaps : DataFrame :=
  {| columns := ["A"; "B"];
     rows := [(0%Z, [SNull; SStr "x"]); (1%Z, [SInt 1; SNull]);
              (2%Z, [SNull; SNull]); (3%Z, [SInt 4; SStr "y"])] |}.

(** A list is in order for [R]: every element stands in [R] to the next. *)
Fixpoint ordered {A : Type} (R : A -> A -> bool) (l : list A) : bool :=
  match l with
  | [] => true
  | a :: l' =>
      match l' with
      | [] => true
      | b :: _ => R a b
      end && ordered R l'
  end.

(** What pandas promises of the sort it runs by default: the positions come
    back permuted, and the keys taken in that order are non-decreasing when
    they can be compared. *)
Definition argsort_sorts (argsort : argsort_fn) : Prop :=
  forall ks : list scalar,
    Permutation (argsort ks) (seq 0 (List.length ks)) /\
    (comparable_keys ks = true ->
     ordered scalar_le (take SNull ks (argsort ks)) = true).

(** The sort keeps equal keys in input order: for every key, the positions
    that hold it come back in increasing order.  pandas does not promise
    this of the kind it runs by default; the property of [sort_data] that
    rests on it says so. *)
Definition argsort_stable (argsort : argsort_fn) : Prop :=
  forall (ks : list scalar) (v : scalar),
    comparable_keys ks = true ->
    filter (fun i => scalar_same (nth i ks SNull) v) (argsort ks)
    = filter (fun i => scalar_same (nth i ks SNull) v) (seq 0 (List.length ks)).

(** Two sorts that keep the promise: insertion of each position, from the
    last to the first, into the positions sorted so far.  With [ties_first]
    a position goes in front of the positions with the same key, so equal
    keys stay in input order; without it, it goes behind them. *)
Definition goes_before (ties_first : bool) (a b : scalar) : bool :=
  if ties_first then scalar_le a b else negb (scalar_le b a).

(** Insertion of position [i] into positions already in key order. *)
Fixpoint insert_index (ties_first : bool) (ks : list scalar) (i : nat) (sorted : list nat)
  : list nat :=
  match sorted with
  | [] => [i]
  | j :: rest =>
      if goes_before ties_first (nth i ks SNull) (nth j ks SNull)
      then i :: sorted
      else j :: insert_index ties_first ks i rest
  end.

(** The sort: every position of the keys inserted, last position first. *)
Definition insertion_argsort (ties_first : bool) : argsort_fn :=
  fun ks => fold_right (insert_index ties_first ks) [] (seq 0 (List.length ks)).

(** The rows whose cell in column [k] equals [v], in order. *)
Definition rows_with_key (k : nat) (v : scalar) (rs : list (Z * list scalar))
  : list (Z * list scalar) :=
  filter (fun r => scalar_same (cell k r) v) rs.

(** The order asked of two rows that follow each other: by the cells of
    column [k], non-decreasing or non-increasing. *)
Definition key_order (k : nat) (ascending : bool) (r1 r2 : Z * list scalar) : bool :=
  if ascending then scalar_le (cell k r1) (cell k r2)
  else scalar_le (cell k r2) (cell k r1).

(** The row read at a position a table does not have. *)
Definition no_row : Z * list scalar := (0%Z, []).

(** Column [A] = 3, null, 1, 3. *)
Definition table_scores : DataFrame :=
  {| columns := ["A"; "B"];
     rows := [(0%Z, [SInt 3; SStr "p"]); (1%Z, [SNull; SStr "q"]);
              (2%Z, [SInt 1; SStr "r"]); (3%Z, [SInt 3; SStr "s"])] |}.

(** Column [A] = null, 1. *)
Definition table_null_first : DataFrame :=
  {| columns := ["A"]; rows := [(0%Z, [SNull]); (1%Z, [SInt 1])] |}.

(** Column [A] = 1, 1. *)
Definition table_ties : DataFrame :=
  {| columns := ["A"; "B"];
     rows := [(0%Z, [SInt 1; SStr "first"]); (1%Z, [SInt 1; SStr "second"])] |}.

(** ** Vocabulary of the further properties *)

(** The comparison of a cell with a value is true: it neither fails nor is
    false. *)
Definition cell_passes (op : cmp_op) (x v : scalar) : bool :=
  match compare_cell op x v with
  | Ok b => b
  | Raise _ => false
  end.

(** A row passes a rule, as a test: a rule whose condition is none of the
    three passes every row; one of the three needs its column and a true
    comparison. *)
Definition rule_holds (cols : list string) (rule : Rule) (r : Z * list scalar) : bool :=
  match rule_op rule with
  | None => true
  | Some op =>
      match get_loc (column rule) cols with
      | Some k => cell_passes op (cell k r) (value rule)
      | None => false
      end
  end.

(** A rule that orders by a string: ["greater_than"] or ["less_than"] with
    a string for value.  pandas takes the failure of such a comparison from
    the type of the column, also when the column has no cell to compare,
    where [compare_cell] raises from a cell; the properties of [apply_rules]
    that say when a run raises leave these rules out. *)
Definition orders_by_string (rule : Rule) : bool :=
  (String.eqb (condition rule) "greater_than" || String.eqb (condition rule) "less_than")
  && is_str (value rule).

Definition no_string_order (rules : list Rule) : Prop :=
  forall rule, In rule rules -> orders_by_string rule = false.

(** The input table with the rows that pass all of the rules. *)
Definition rows_passing (df : DataFrame) (rules : list Rule) : DataFrame :=
  {| columns := columns df;
     rows := filter (fun r => forallb (fun rule => rule_holds (columns df) rule r) rules)
                    (rows df) |}.

(** An integer that a 64-bit float holds exactly.  pandas turns a column
    of integers into a column of floats when a row without that column is
    added, and floats are not modelled: the properties of an addition are
    stated for the integers that come through it unchanged. *)
Definition fits_float64 (v : scalar) : bool :=
  match v with
  | SInt n => (Z.abs n <=? 9007199254740992)%Z
  | _ => true
  end.

Definition cells_fit_float64 (df : DataFrame) : bool :=
  forallb (fun r => forallb fits_float64 (snd r)) (rows df).

(** The mapping read backwards: every new name back to the old one. *)
Definition inverse_mapping (column_mapping : list (string * string))
  : list (string * string) :=
  map (fun kv => (snd kv, fst kv)) column_mapping.

(** What a table operation leaves behind: one more log entry and the page
    as it was, or the log as it was and one more error on the page. *)
Definition logged_or_reported (s s' : State) : Prop :=
  (exists entry, s' = {| log := log s ++ [entry]; page := page s |}) \/
  (exists prefix e,
      s' = {| log := log s; page := page s ++ [st_error prefix (Some e)] |}).

(** Case analysis on every drawing call, closing the cases in which one
    raises. *)
Ltac chart_backend_cases :=
  repeat match goal with
         | |- context [match ?b ?c with Ok _ => _ | Raise _ => _ end] =>
             let E := fresh "E" in
             destruct (b c) eqn:E; simpl;
             [| try (right; eexists; eexists; exact E)]
         end.

(** * Properties *)

(** ** The scenarios *)

(** The scenarios of the specification. *)
Example remove_duplicates_scenario :
  remove_duplicates empty_state table_AB =
  ({| columns := ["A"; "B"];
      rows := [(0%Z, [SInt 1; SStr "x"]); (2%Z, [SInt 2; SStr "y"])] |},
   {| log := [{| action := "remove_duplicates";
                 details := "Removed 1 duplicate rows." |}];
      page := [] |}).
Proof. reflexivity. Qed.

Example apply_rules_scenario :
  fst (apply_rules empty_state table_A [mkRule "A" "greater_than" (SInt 10)]) =
  {| columns := ["A"]; rows := [(1%Z, [SInt 15]); (2%Z, [SInt 25])] |}.
Proof. reflexivity. Qed.

Example add_or_delete_rows_scenario :
  fst (add_or_delete_rows empty_state
         {| columns := ["A"]; rows := [(0%Z, [SInt 1]); (1%Z, [SInt 2])] |}
         [op_add [("A", SInt 99)]; op_delete (Some 0%Z)]) =
  {| columns := ["A"]; rows := [(1%Z, [SInt 2]); (2%Z, [SInt 99])] |}.
Proof. reflexivity. Qed.

(** ** Masks *)

Lemma select_all_true {A : Type} (l : list A) :
  select (map negb (map (fun _ => false) l)) l = l.
Proof.
  induction l as [| a l IH]; simpl; [reflexivity | now rewrite IH].
Qed.

Lemma select_length_le {A : Type} (mask : list bool) (l : list A) :
  List.length (select mask l) <= List.length l.
Proof.
  revert l; induction mask as [| b mask IH]; intros [| a l]; simpl; try lia.
  destruct b; simpl; specialize (IH l); lia.
Qed.

Lemma select_In {A : Type} (mask : list bool) (l : list A) (a : A) :
  In a (select mask l) -> In a l.
Proof.
  revert l; induction mask as [| b mask IH]; intros [| x l]; simpl; try tauto.
  destruct b; simpl; intros H.
  - destruct H as [H | H]; [now left | right; now apply IH].
  - right; now apply IH.
Qed.

Lemma filter_filter {A : Type} (p q : A -> bool) (l : list A) :
  filter q (filter p l) = filter (fun a => p a && q a) l.
Proof.
  induction l as [| a l IH]; simpl; [reflexivity |].
  destruct (p a); simpl; [destruct (q a) |]; now rewrite IH.
Qed.

(** ** remove_duplicates *)

Lemma existsb_incl {A : Type} (f : A -> bool) (l l' : list A) :
  incl l' l -> existsb f l = false -> existsb f l' = false.
Proof.
  intros Hincl Hnone.
  destruct (existsb f l') eqn:E; [| reflexivity].
  apply existsb_exists in E. destruct E as [x [Hin Hfx]].
  assert (existsb f l = true) as Hsome
    by (apply existsb_exists; exists x; split; [now apply Hincl | exact Hfx]).
  congruence.
Qed.

(** A second pass over the kept rows marks none of them, whatever subset of
    the first pass's [seen] it has seen itself. *)
Lemma kept_rows_not_duplicated (rs : list (Z * list scalar)) :
  forall seen seen', incl seen' seen ->
    duplicated_from seen' (kept_from seen rs) = map (fun _ => false) (kept_from seen rs).
Proof.
  unfold kept_from.
  induction rs as [| r rs IH]; intros seen seen' Hincl; simpl; [reflexivity |].
  destruct (existsb (row_same (snd r)) seen) eqn:Hdup; simpl.
  - apply IH. intros x Hx. apply in_or_app. left. now apply Hincl.
  - rewrite (existsb_incl _ _ _ Hincl Hdup). f_equal.
    apply IH. intros x Hx. apply in_app_or in Hx. apply in_or_app.
    destruct Hx as [Hx | Hx]; [left; now apply Hincl | now right].
Qed.

Lemma drop_duplicates_idempotent (df : DataFrame) :
  drop_duplicates (drop_duplicates df) = drop_duplicates df.
Proof.
  unfold drop_duplicates, getitem_mask, duplicated; simpl.
  f_equal.
  change (select (map negb (duplicated_from [] (rows df))) (rows df))
    with (kept_from [] (rows df)).
  rewrite (kept_rows_not_duplicated (rows df) [] []) by apply incl_refl.
  apply select_all_true.
Qed.

(** C5. Removing duplicates twice gives the table that removing them once
    gives, and the second call reports that it removed no row. *)
Theorem remove_duplicates_idempotent :
  forall (s s' : State) (df : DataFrame),
    let once := fst (remove_duplicates s df) in
    fst (remove_duplicates s' once) = once /\
    log (snd (remove_duplicates s' once)) =
      log s' ++ [{| action := "remove_duplicates";
                    details := "Removed 0 duplicate rows." |}].
Proof.
  intros s s' df once. subst once. unfold remove_duplicates; simpl.
  rewrite drop_duplicates_idempotent. split; [reflexivity |].
  rewrite Z.sub_diag. reflexivity.
Qed.

(** ** fill_missing_values: the branch that fills nothing *)

Lemma fill_missing_values_body_noop (df : DataFrame) (method : string) (value : scalar) :
  fills_nothing method value ->
  fill_missing_values_body df method value = Ok df.
Proof.
  unfold fill_missing_values_body.
  intros [[Hm Hv] | [Hf [Hb Hv]]].
  - subst. reflexivity.
  - apply String.eqb_neq in Hf, Hb, Hv. now rewrite Hf, Hb, Hv.
Qed.

(** C7. With method ["value"] and no value, or with a method that is none
    of ["ffill"], ["bfill"], ["value"], the table comes back as it was and
    nothing is shown on the page: no error is raised or reported. *)
Theorem fill_missing_values_noop_returns_table :
  forall (s : State) (df : DataFrame) (method : string) (value : scalar),
    fills_nothing method value ->
    fill_missing_values_body df method value = Ok df /\
    fst (fill_missing_values s df method value) = df /\
    page (snd (fill_missing_values s df method value)) = page s.
Proof.
  intros s df method value H.
  pose proof (fill_missing_values_body_noop df method value H) as Hbody.
  unfold fill_missing_values. rewrite Hbody. simpl. auto.
Qed.

Lemma fill_missing_values_noop_returns_table_witness :
  fills_nothing "value" SNull /\
  fills_nothing "median" (SInt 3) /\
  fst (fill_missing_values empty_state table_AB "value" SNull) = table_AB /\
  page (snd (fill_missing_values empty_state table_AB "median" (SInt 3))) = [].
Proof.
  assert (fills_nothing "value" SNull) as H1 by (left; split; reflexivity).
  assert (fills_nothing "median" (SInt 3)) as H2
    by (right; repeat split; discriminate).
  split; [exact H1 |]. split; [exact H2 |]. split.
  - exact (proj1 (proj2 (fill_missing_values_noop_returns_table
                           empty_state table_AB "value" SNull H1))).
  - exact (proj2 (proj2 (fill_missing_values_noop_returns_table
                           empty_state table_AB "median" (SInt 3) H2))).
Defined.

(** C10. On that same branch the call still appends its log entry, whose
    details say that missing values were filled using the method, although
    the table it returns is the table it was given. *)
Theorem fill_missing_values_noop_still_logs :
  forall (s : State) (df : DataFrame) (method : string) (value : scalar),
    fills_nothing method value ->
    fill_missing_values s df method value =
      (df,
       {| log := log s ++ [{| action := "fill_missing_values";
                              details := "Filled missing values using " +++ method
                                         +++ " method." |}];
          page := page s |}).
Proof.
  intros s df method value H.
  unfold fill_missing_values.
  rewrite (fill_missing_values_body_noop df method value H). reflexivity.
Qed.

Lemma fill_missing_values_noop_still_logs_witness :
  fills_nothing "mean" SNull /\
  fill_missing_values empty_state table_A "mean" SNull =
    (table_A,
     {| log := [{| action := "fill_missing_values";
                   details := "Filled missing values using mean method." |}];
        page := [] |}).
Proof.
  assert (fills_nothing "mean" SNull) as H
    by (right; repeat split; discriminate).
  split; [exact H |].
  exact (fill_missing_values_noop_still_logs empty_state table_A "mean" SNull H).
Defined.

(** ** apply_rules *)

Lemma mapM_select {A B : Type} (f : B -> result bool) (g : A -> B) (l : list A) :
  forall mask, mapM f (map g l) = Ok mask ->
    forall a, In a (select mask l) -> In a l /\ f (g a) = Ok true.
Proof.
  induction l as [| x l IH]; intros mask Hm a Hin; simpl in *.
  - injection Hm as <-. destruct Hin.
  - unfold bind in Hm. destruct (f (g x)) as [b |] eqn:Hx; [| discriminate].
    destruct (mapM f (map g l)) as [bs |] eqn:Hl; [| discriminate].
    injection Hm as <-. simpl in Hin.
    destruct b; simpl in Hin.
    + destruct Hin as [<- | Hin]; [now split; [left |] |].
      destruct (IH bs eq_refl a Hin) as [H1 H2]. split; [now right | exact H2].
    + destruct (IH bs eq_refl a Hin) as [H1 H2]. split; [now right | exact H2].
Qed.

(** What a successful filter keeps: rows of the table, at which the
    comparison is true. *)
Lemma filter_by_Ok (df df' : DataFrame) (c : string) (op : cmp_op) (v : scalar) :
  filter_by df c op v = Ok df' ->
  columns df' = columns df /\
  exists k, get_loc c (columns df) = Some k /\
    forall r, In r (rows df') -> In r (rows df) /\ compare_cell op (cell k r) v = Ok true.
Proof.
  unfold filter_by, getitem, bind.
  destruct (get_loc c (columns df)) as [k |]; [| discriminate].
  destruct (mapM _ _) as [mask |] eqn:Hmask; [| discriminate].
  intros H. injection H as <-. simpl. split; [reflexivity |].
  exists k. split; [reflexivity |].
  intros r Hr.
  exact (mapM_select (fun x => compare_cell op x v) (cell k) (rows df) mask Hmask r Hr).
Qed.

Lemma apply_rule_Ok (df df' : DataFrame) (rule : Rule) :
  apply_rule df rule = Ok df' ->
  columns df' = columns df /\
  forall r, In r (rows df') -> In r (rows df) /\ satisfies (columns df) r rule.
Proof.
  unfold apply_rule, satisfies, rule_op.
  destruct (String.eqb (condition rule) "greater_than");
    [| destruct (String.eqb (condition rule) "less_than");
       [| destruct (String.eqb (condition rule) "equals")]].
  4: { intros H. injection H as <-. split; [reflexivity |].
       intros r Hr. split; [exact Hr | intros op Hop; discriminate]. }
  all: intros H; apply filter_by_Ok in H; destruct H as [Hc [k [Hk Hrows]]];
    (split; [exact Hc |]); intros r Hr; destruct (Hrows r Hr) as [Hin Hcmp];
    (split; [exact Hin |]); intros op Hop; injection Hop as <-;
    exists k; split; assumption.
Qed.

(** When no rule raises, every row that is left satisfies every rule. *)
Lemma apply_rules_loop_Ok (rules : list Rule) :
  forall df df', apply_rules_loop df rules = (df', None) ->
    columns df' = columns df /\
    forall r, In r (rows df') ->
      In r (rows df) /\ forall rule, In rule rules -> satisfies (columns df) r rule.
Proof.
  induction rules as [| rule rules IH]; intros df df' H; simpl in H.
  - injection H as <-. split; [reflexivity |].
    intros r Hr. split; [exact Hr | intros rule []].
  - destruct (apply_rule df rule) as [df1 |] eqn:H1; [| discriminate].
    apply apply_rule_Ok in H1. destruct H1 as [Hc1 Hr1].
    destruct (IH df1 df' H) as [Hc Hr].
    split; [congruence |].
    intros r Hin. destruct (Hr r Hin) as [Hin1 Hsat].
    destruct (Hr1 r Hin1) as [Hin0 Hsat0].
    split; [exact Hin0 |].
    intros rule' [<- | Hrule]; [exact Hsat0 |].
    rewrite <- Hc1. now apply Hsat.
Qed.

(** When a rule raises, the loop ends with the table as the rules before it
    left it. *)
Lemma apply_rules_loop_Raise (rules : list Rule) :
  forall df df' e, apply_rules_loop df rules = (df', Some e) ->
    exists before rule after,
      rules = before ++ rule :: after /\
      apply_rules_loop df before = (df', None) /\
      apply_rule df' rule = Raise e.
Proof.
  induction rules as [| rule rules IH]; intros df df' e H; simpl in H; [discriminate |].
  destruct (apply_rule df rule) as [df1 |] eqn:H1.
  - destruct (IH df1 df' e H) as [before [rule' [after [Heq [Hb Hr]]]]].
    exists (rule :: before), rule', after. subst rules. simpl. rewrite H1. auto.
  - injection H as <- <-. exists [], rule, rules. auto.
Qed.

(** C1. The call does not return its input when a rule or an operation
    raises: [df] has been rebound by the steps that succeeded, and the
    handler returns that [df].  Here the first rule keeps two of the three
    rows and the second raises [KeyError]; and the first deletion succeeds
    while the second raises [KeyError], label 0 being gone. *)
Theorem error_returns_partially_modified_table :
  apply_rules empty_state table_A [rule_A_gt_10; rule_Z_lt_1] =
    ({| columns := ["A"]; rows := [(1%Z, [SInt 15]); (2%Z, [SInt 25])] |},
     {| log := [];
        page := [st_error "Error applying rules: " (Some (KeyError (SStr "Z")))] |}) /\
  fst (apply_rules empty_state table_A [rule_A_gt_10; rule_Z_lt_1]) <> table_A /\
  add_or_delete_rows empty_state table_A [op_delete (Some 0%Z); op_delete (Some 0%Z)] =
    ({| columns := ["A"]; rows := [(1%Z, [SInt 15]); (2%Z, [SInt 25])] |},
     {| log := [];
        page := [st_error "Error performing operations: " (Some (KeyError (SInt 0)))] |}) /\
  fst (add_or_delete_rows empty_state table_A [op_delete (Some 0%Z); op_delete (Some 0%Z)])
    <> table_A.
Proof.
  repeat split; try reflexivity; vm_compute; discriminate.
Qed.

(** C2. With a rule on a column the table does not have, the result is
    not the input table, and its rows do not satisfy all the rules: the
    rule before the failing one has filtered, the rule after it has not. *)
Theorem apply_rules_missing_column_keeps_filtering :
  In rule_Z_lt_1 [rule_A_gt_10; rule_Z_lt_1; rule_A_gt_20] /\
  get_loc (column rule_Z_lt_1) (columns table_A) = None /\
  fst (apply_rules empty_state table_A [rule_A_gt_10; rule_Z_lt_1; rule_A_gt_20]) =
    {| columns := ["A"]; rows := [(1%Z, [SInt 15]); (2%Z, [SInt 25])] |} /\
  fst (apply_rules empty_state table_A [rule_A_gt_10; rule_Z_lt_1; rule_A_gt_20])
    <> table_A /\
  ~ satisfies (columns table_A) (1%Z, [SInt 15]) rule_A_gt_20.
Proof.
  split; [right; left; reflexivity |].
  split; [reflexivity |]. split; [reflexivity |].
  split; [vm_compute; discriminate |].
  intros H. destruct (H op_gt eq_refl) as [k [Hk Hcmp]].
  vm_compute in Hk. injection Hk as <-. vm_compute in Hcmp. discriminate.
Qed.

(** C9. A rule whose condition is none of the three is skipped: the loop
    leaves the table as it is for that rule and raises nothing; alone, the
    rule makes the call return the table, show nothing and append the log
    entry; and in any list of rules the call behaves as without it. *)
Theorem apply_rules_skips_unrecognised_condition :
  forall rule : Rule,
    condition rule <> "greater_than" ->
    condition rule <> "less_than" ->
    condition rule <> "equals" ->
    (forall df, apply_rule df rule = Ok df) /\
    (forall s df,
        apply_rules s df [rule] =
          (df,
           {| log := log s ++
                     [{| action := "apply_rules";
                         details := "Applied rules: " +++ repr_list repr_rule [rule]
                                    +++ ". Remaining rows: " +++ str_of_nat (len df) |}];
              page := page s |})) /\
    (forall df before after,
        apply_rules_loop df (before ++ rule :: after) =
        apply_rules_loop df (before ++ after)).
Proof.
  intros rule Hgt Hlt Heq.
  apply String.eqb_neq in Hgt, Hlt, Heq.
  assert (forall df, apply_rule df rule = Ok df) as Hskip
    by (intros df; unfold apply_rule; now rewrite Hgt, Hlt, Heq).
  split; [exact Hskip |]. split.
  - intros s df. unfold apply_rules. simpl. rewrite Hskip. reflexivity.
  - intros df before. revert df.
    induction before as [| r before IH]; intros df after; simpl.
    + now rewrite Hskip.
    + destruct (apply_rule df r); [apply IH | reflexivity].
Qed.

Lemma apply_rules_skips_unrecognised_condition_witness :
  apply_rule table_A (mkRule "A" "at_least" (SInt 10)) = Ok table_A /\
  fst (apply_rules empty_state table_A [mkRule "A" "at_least" (SInt 10)]) = table_A /\
  apply_rules_loop table_A [rule_A_gt_10; mkRule "Z" "at_least" (SInt 10)] =
    apply_rules_loop table_A [rule_A_gt_10].
Proof.
  pose proof (apply_rules_skips_unrecognised_condition (mkRule "A" "at_least" (SInt 10))
                ltac:(discriminate) ltac:(discriminate) ltac:(discriminate))
    as [H1 [H2 _]].
  pose proof (apply_rules_skips_unrecognised_condition (mkRule "Z" "at_least" (SInt 10))
                ltac:(discriminate) ltac:(discriminate) ltac:(discriminate))
    as [_ [_ H3]].
  split; [apply H1 |]. split.
  - rewrite H2. reflexivity.
  - exact (H3 table_A [rule_A_gt_10] []).
Defined.

(** ** add_or_delete_rows *)

(** A deletion without an index, or with one outside [0 <= i < len(df)],
    leaves the table as it is. *)
Lemma delete_out_of_range_skipped (df : DataFrame) (index : option Z) :
  (forall i, index = Some i -> (i < 0 \/ Z.of_nat (len df) <= i)%Z) ->
  apply_operation df (op_delete index) = Ok df.
Proof.
  intros H. destruct index as [i |]; simpl; [| reflexivity].
  destruct (H i eq_refl) as [Hlt | Hge].
  - replace (0 <=? i)%Z with false by (symmetry; apply Z.leb_gt; lia). reflexivity.
  - replace (i <? Z.of_nat (len df))%Z with false by (symmetry; apply Z.ltb_ge; lia).
    now rewrite andb_false_r.
Qed.

Lemma filter_label_above (cells : list (list scalar)) :
  forall (start : nat) (i : Z), (i < Z.of_nat start)%Z ->
    filter (fun r : Z * list scalar => negb (Z.eqb (fst r) i))
           (combine (map Z.of_nat (seq start (List.length cells))) cells)
    = combine (map Z.of_nat (seq start (List.length cells))) cells.
Proof.
  induction cells as [| c cells IH]; intros start i Hi; simpl; [reflexivity |].
  replace (Z.of_nat start =? i)%Z with false by (symmetry; apply Z.eqb_neq; lia).
  simpl. f_equal. apply IH. lia.
Qed.

Lemma filter_label_position (cells : list (list scalar)) :
  forall (start n : nat), n < List.length cells ->
    filter (fun r : Z * list scalar => negb (Z.eqb (fst r) (Z.of_nat (start + n))))
           (combine (map Z.of_nat (seq start (List.length cells))) cells)
    = delete_position n (combine (map Z.of_nat (seq start (List.length cells))) cells).
Proof.
  unfold delete_position.
  induction cells as [| c cells IH]; intros start n Hn; simpl in *; [lia |].
  destruct n as [| n].
  - rewrite Nat.add_0_r, Z.eqb_refl. simpl.
    apply filter_label_above. lia.
  - replace (Z.of_nat start =? Z.of_nat (start + S n))%Z with false
      by (symmetry; apply Z.eqb_neq; lia).
    simpl. f_equal.
    replace (start + S n) with (S start + n) by lia.
    apply IH. lia.
Qed.

(** On a table whose rows are labelled 0, 1, 2, ... in order, as a file
    just read or a table after an "add", a deletion in range removes the row
    at that position. *)
Lemma delete_on_range_index (cols : list string) (cells : list (list scalar)) (n : nat) :
  n < List.length cells ->
  apply_operation {| columns := cols; rows := range_index cells |}
                  (op_delete (Some (Z.of_nat n))) =
  Ok {| columns := cols; rows := delete_position n (range_index cells) |}.
Proof.
  intros Hn. unfold apply_operation, len, range_index; simpl.
  assert (List.length (combine (map Z.of_nat (seq 0 (List.length cells))) cells)
          = List.length cells) as Hlen
    by (rewrite length_combine, length_map, length_seq; lia).
  rewrite Hlen.
  replace (0 <=? Z.of_nat n)%Z with true by (symmetry; apply Z.leb_le; lia).
  replace (Z.of_nat n <? Z.of_nat (List.length cells))%Z with true
    by (symmetry; apply Z.ltb_lt; lia).
  simpl. unfold drop; simpl.
  pose proof (filter_label_position cells 0 n Hn) as Hf. simpl in Hf.
  rewrite Hf.
  destruct (existsb _ _) eqn:Hex; [reflexivity |].
  exfalso.
  assert (In (Z.of_nat n, nth n cells [])
             (combine (map Z.of_nat (seq 0 (List.length cells))) cells)) as Hin.
  { replace (Z.of_nat n, nth n cells [])
      with (nth n (combine (map Z.of_nat (seq 0 (List.length cells))) cells) (0%Z, [])).
    - apply nth_In. lia.
    - rewrite combine_nth by (rewrite length_map, length_seq; reflexivity).
      f_equal. change 0%Z with (Z.of_nat 0).
      rewrite (map_nth Z.of_nat (seq 0 (List.length cells)) 0 n).
      now rewrite seq_nth. }
  assert (existsb (fun r : Z * list scalar => (fst r =? Z.of_nat n)%Z)
                  (combine (map Z.of_nat (seq 0 (List.length cells))) cells) = true) as Ht.
  { apply existsb_exists. eexists. split; [exact Hin |]. simpl. apply Z.eqb_refl. }
  congruence.
Qed.

(** C4. A deletion does not remove the row at the given position once an
    earlier deletion has left the labels behind the positions: [drop] goes
    by index label, while the range test goes by [len(df)].  After deleting
    at 0 the rows are labelled 1 and 2; deleting at 1 then removes the first
    of the two, not the second; and deleting at 0 again, in range for two
    rows, raises [KeyError] instead of removing a row. *)
Theorem delete_goes_by_label_not_position :
  add_or_delete_rows_loop table_A [op_delete (Some 0%Z); op_delete (Some 1%Z)] =
    ({| columns := ["A"]; rows := [(2%Z, [SInt 25])] |}, None) /\
  delete_position 1 (delete_position 0 (rows table_A)) = [(1%Z, [SInt 15])] /\
  add_or_delete_rows_loop table_A [op_delete (Some 0%Z); op_delete (Some 0%Z)] =
    ({| columns := ["A"]; rows := [(1%Z, [SInt 15]); (2%Z, [SInt 25])] |},
     Some (KeyError (SInt 0))) /\
  delete_position 0 (delete_position 0 (rows table_A)) = [(2%Z, [SInt 25])].
Proof.
  repeat split; reflexivity.
Qed.

(** ** create_chart *)

(** The log after the call: one more entry when the statements inside
    [try] ran to their end, none when one of them raised. *)
Lemma create_chart_log (backend : backend_fn) (s : State) (df : DataFrame)
  (chart_type x_column : string) (y_column : option string) :
  log (create_chart backend s df chart_type x_column y_column) =
  match fst (create_chart_body backend df chart_type x_column y_column (s, [])) with
  | Ok _ => log s ++ [chart_entry chart_type x_column y_column]
  | Raise _ => log s
  end.
Proof.
  unfold create_chart, create_chart_body, chart_entry, then_, plt_figure, plt, lift,
    st_errorC, st_pyplotC, log_actionC.
  simpl.
  destruct (String.eqb chart_type "Bar Chart"); simpl.
  - destruct (truthy y_column); simpl; chart_cases; reflexivity.
  - destruct (String.eqb chart_type "Line Chart" && truthy y_column); simpl.
    + chart_cases; reflexivity.
    + destruct (String.eqb chart_type "Pie Chart"); simpl; chart_cases; reflexivity.
Qed.

(** C8, amended. When the statements inside [try] run to their end, the
    call appends exactly one log entry and renders the figure, after the
    error message on the invalid combination; when one of them raises, the
    call appends nothing to the log and shows the error, and that only.  On
    the invalid combination they always run to their end: the error
    message is shown, an empty figure is rendered, no drawing call is made,
    and the entry is appended. *)
Theorem create_chart_logs_unless_raised :
  forall (backend : backend_fn) (s : State) (df : DataFrame)
         (chart_type x_column : string) (y_column : option string),
    match fst (create_chart_body backend df chart_type x_column y_column (s, [])) with
    | Ok _ =>
        log (create_chart backend s df chart_type x_column y_column)
          = log s ++ [chart_entry chart_type x_column y_column] /\
        exists figure,
          page (create_chart backend s df chart_type x_column y_column)
            = page s
              ++ (if invalid_combination chart_type y_column
                  then [st_error "Invalid chart type or missing column(s). Please check your inputs." None]
                  else [])
              ++ [st_pyplot figure]
    | Raise e =>
        create_chart backend s df chart_type x_column y_column
          = {| log := log s;
               page := page s ++ [st_error "Error creating chart: " (Some e)] |}
    end /\
    (if invalid_combination chart_type y_column
     then create_chart backend s df chart_type x_column y_column =
            {| log := log s ++ [chart_entry chart_type x_column y_column];
               page := page s ++
                       [st_error "Invalid chart type or missing column(s). Please check your inputs." None;
                        st_pyplot []] |}
     else True).
Proof.
  intros backend s df chart_type x_column y_column.
  split.
  - unfold invalid_combination, create_chart, create_chart_body, chart_entry, then_,
      plt_figure, plt, lift, st_errorC, st_pyplotC, log_actionC.
    simpl.
    destruct (String.eqb chart_type "Bar Chart"); simpl.
    + destruct (truthy y_column); simpl; chart_calls backend df; try reflexivity;
        (split; [reflexivity | eexists; reflexivity]).
    + destruct (String.eqb chart_type "Line Chart" && truthy y_column); simpl.
      * chart_calls backend df; try reflexivity;
          (split; [reflexivity | eexists; reflexivity]).
      * destruct (String.eqb chart_type "Pie Chart"); simpl.
        -- chart_calls backend df; try reflexivity;
           (split; [reflexivity | eexists; reflexivity]).
        -- split; [reflexivity |]. exists []. now rewrite <- app_assoc.
  - unfold invalid_combination.
    destruct (String.eqb chart_type "Bar Chart") eqn:Hbar; simpl; [exact I |].
    destruct (String.eqb chart_type "Line Chart" && truthy y_column) eqn:Hline; simpl;
      [exact I |].
    destruct (String.eqb chart_type "Pie Chart") eqn:Hpie; simpl; [exact I |].
    unfold create_chart, create_chart_body, chart_entry, then_, plt_figure,
      st_errorC, st_pyplotC, log_actionC.
    simpl. rewrite Hbar, Hline, Hpie. simpl.
    unfold log_action, st_show; simpl. now rewrite <- app_assoc.
Qed.

(** C8, as stated, fails: a bar chart of a column the table does not have
    raises [KeyError] inside [try]; the error is shown and no log entry is
    appended. *)
Lemma create_chart_missing_column_not_logged :
  create_chart (fun _ => Ok tt) empty_state table_A "Bar Chart" "Z" None =
    {| log := [];
       page := [st_error "Error creating chart: " (Some (KeyError (SStr "Z")))] |}.
Proof. reflexivity. Qed.

(** ** fill_missing_values with ["ffill"] *)

Lemma ffill_from_length (col : list scalar) :
  forall last, List.length (ffill_from last col) = List.length col.
Proof.
  induction col as [| v col IH]; intros last; simpl; [reflexivity | now rewrite IH].
Qed.

(** A cell that is not null keeps its value. *)
Lemma ffill_from_notna (col : list scalar) :
  forall last i, notna (nth i col SNull) = true ->
    nth i (ffill_from last col) SNull = nth i col SNull.
Proof.
  induction col as [| v col IH]; intros last i H; simpl.
  - destruct i; reflexivity.
  - destruct i as [| i]; simpl in *.
    + unfold notna in H. destruct (isna v); [discriminate | reflexivity].
    + now apply IH.
Qed.

(** A null with only nulls above it takes the value carried in. *)
Lemma ffill_from_leading (col : list scalar) :
  forall last i, i < List.length col ->
    (forall j, j <= i -> isna (nth j col SNull) = true) ->
    nth i (ffill_from last col) SNull = last.
Proof.
  induction col as [| v col IH]; intros last i Hi Hnull; simpl in *; [lia |].
  pose proof (Hnull 0 (Nat.le_0_l i)) as H0. simpl in H0. rewrite H0.
  destruct i as [| i]; [reflexivity |].
  apply IH; [lia |].
  intros j Hj. exact (Hnull (S j) (proj1 (Nat.succ_le_mono j i) Hj)).
Qed.

(** A null takes the value of the nearest cell above it that is not null. *)
Lemma ffill_from_nearest (col : list scalar) :
  forall last j i, j < i -> i < List.length col ->
    notna (nth j col SNull) = true ->
    (forall m, j < m -> m <= i -> isna (nth m col SNull) = true) ->
    nth i (ffill_from last col) SNull = nth j col SNull.
Proof.
  induction col as [| v col IH]; intros last j i Hji Hi Hj Hrun; simpl in *; [lia |].
  destruct i as [| i]; [lia |].
  destruct j as [| j].
  - unfold notna in Hj. destruct (isna v); [discriminate |].
    apply ffill_from_leading; [lia |].
    intros m Hm. apply (Hrun (S m)); lia.
  - apply IH; [lia | lia | exact Hj |].
    intros m Hm1 Hm2. apply (Hrun (S m)); lia.
Qed.

Lemma nth_nil_SNull (i : nat) : nth i (@nil scalar) SNull = SNull.
Proof. destruct i; reflexivity. Qed.

(** Column [k] of the rebuilt frame is [f] of column [k] of the frame. *)
Lemma map_columns_iat (f : list scalar -> list scalar) (df : DataFrame) (i k : nat) :
  k < List.length (columns df) -> i < len df ->
  iat (map_columns f df) i k = nth i (f (map (cell k) (rows df))) SNull.
Proof.
  intros Hk Hi. unfold iat, map_columns, len in *. simpl.
  set (filled := map (fun k0 => f (map (cell k0) (rows df)))
                     (seq 0 (List.length (columns df)))).
  set (g := fun ir : nat * Z => (snd ir, map (fun col => nth (fst ir) col SNull) filled)).
  assert (i < List.length (combine (seq 0 (List.length (rows df))) (map fst (rows df))))
    as Hlen by (rewrite length_combine, length_seq, length_map; lia).
  rewrite (nth_indep _ (0%Z, []) (g (0, 0%Z)))
    by (rewrite length_map; exact Hlen).
  rewrite (map_nth g).
  rewrite combine_nth by (rewrite length_seq, length_map; reflexivity).
  rewrite seq_nth by lia.
  unfold g, cell. simpl.
  rewrite <- (nth_nil_SNull i) at 1.
  rewrite (map_nth (fun col => nth i col SNull) filled [] k).
  f_equal. unfold filled.
  rewrite (nth_indep _ [] (f (map (cell 0) (rows df))))
    by (rewrite length_map, length_seq; exact Hk).
  rewrite (map_nth (fun k0 => f (map (cell k0) (rows df)))).
  now rewrite seq_nth by lia.
Qed.

Lemma map_columns_labels (f : list scalar -> list scalar) (df : DataFrame) :
  map fst (rows (map_columns f df)) = map fst (rows df).
Proof.
  unfold map_columns, len. simpl. rewrite map_map. simpl.
  generalize 0 as start.
  induction (rows df) as [| r rs IH]; intros start; simpl; [reflexivity |].
  f_equal. apply IH.
Qed.

Lemma iat_column (df : DataFrame) (i k : nat) :
  nth i (map (cell k) (rows df)) SNull = iat df i k.
Proof.
  unfold iat.
  replace SNull with (cell k (0%Z, [])) at 1
    by (unfold cell; simpl; apply nth_nil_SNull).
  apply map_nth.
Qed.

(** C6. Forward fill works column by column, along the row order: the
    columns and the row labels stay; a cell that is not null keeps its
    value; a null below a cell [j] that is not null, with only nulls in
    between, takes the value of [j]; and a null with only nulls above it
    stays null. *)
Theorem fill_missing_values_ffill :
  forall (s : State) (df : DataFrame) (value : scalar) (i k : nat),
    k < List.length (columns df) ->
    i < len df ->
    let filled := fst (fill_missing_values s df "ffill" value) in
    columns filled = columns df /\
    map fst (rows filled) = map fst (rows df) /\
    (notna (iat df i k) = true -> iat filled i k = iat df i k) /\
    (forall j, j < i ->
       notna (iat df j k) = true ->
       (forall m, j < m -> m <= i -> isna (iat df m k) = true) ->
       iat filled i k = iat df j k) /\
    ((forall j, j <= i -> isna (iat df j k) = true) -> iat filled i k = SNull).
Proof.
  intros s df value i k Hk Hi filled. subst filled.
  unfold fill_missing_values, fill_missing_values_body, fillna_method. simpl.
  split; [reflexivity |]. split; [apply map_columns_labels |].
  rewrite (map_columns_iat ffill_column df i k Hk Hi).
  unfold ffill_column.
  assert (i < List.length (map (cell k) (rows df))) as Hlen
    by (rewrite length_map; exact Hi).
  split; [| split].
  - intros Hv. rewrite <- iat_column in Hv |- *. now apply ffill_from_notna.
  - intros j Hji Hj Hrun. rewrite <- iat_column in Hj. rewrite <- iat_column.
    apply ffill_from_nearest; try assumption.
    intros m Hm1 Hm2. rewrite iat_column. now apply Hrun.
  - intros Hnull. apply ffill_from_leading; [exact Hlen |].
    intros j Hj. rewrite iat_column. now apply Hnull.
Qed.

Lemma fill_missing_values_ffill_witness :
  fst (fill_missing_values empty_state table_gaps "ffill" SNull) =
    {| columns := ["A"; "B"];
       rows := [(0%Z, [SNull; SStr "x"]); (1%Z, [SInt 1; SStr "x"]);
                (2%Z, [SInt 1; SStr "x"]); (3%Z, [SInt 4; SStr "y"])] |} /\
  iat (fst (fill_missing_values empty_state table_gaps "ffill" SNull)) 2 1 = SStr "x" /\
  iat (fst (fill_missing_values empty_state table_gaps "ffill" SNull)) 0 0 = SNull.
Proof.
  split; [reflexivity |]. split.
  - refine (proj1 (proj2 (proj2 (proj2
      (fill_missing_values_ffill empty_state table_gaps SNull 2 1 _ _)))) 0 _ _ _).
    + simpl; lia.
    + unfold len; simpl; lia.
    + lia.
    + reflexivity.
    + intros m H1 H2.
      assert (m = 1 \/ m = 2) as [-> | ->] by lia; reflexivity.
  - refine (proj2 (proj2 (proj2 (proj2
      (fill_missing_values_ffill empty_state table_gaps SNull 0 0 _ _)))) _).
    + simpl; lia.
    + unfold len; simpl; lia.
    + intros j Hj. assert (j = 0) as -> by lia. reflexivity.
Defined.

(** ** sort_data *)

Lemma ordered_map {A B : Type} (R : B -> B -> bool) (f : A -> B) (l : list A) :
  ordered R (map f l) = ordered (fun a b => R (f a) (f b)) l.
Proof.
  induction l as [| a l IH]; simpl; [reflexivity |].
  rewrite IH. destruct l; reflexivity.
Qed.

Lemma ordered_snoc {A : Type} (R : A -> A -> bool) (l : list A) (x y : A) :
  ordered R (l ++ [x]) = true -> R x y = true ->
  ordered R ((l ++ [x]) ++ [y]) = true.
Proof.
  intros Hl Hxy. induction l as [| a l IH]; simpl in *.
  - now rewrite Hxy.
  - apply andb_true_iff in Hl. destruct Hl as [Hhead Htail].
    rewrite (IH Htail), andb_true_r.
    destruct l; simpl in *; exact Hhead.
Qed.

Lemma ordered_rev {A : Type} (R : A -> A -> bool) (l : list A) :
  ordered R l = true -> ordered (fun a b => R b a) (rev l) = true.
Proof.
  induction l as [| a l IH]; intros H; [reflexivity |].
  destruct l as [| b l]; [reflexivity |].
  simpl in H. apply andb_true_iff in H. destruct H as [Hab Htail].
  change (rev (a :: b :: l)) with ((rev l ++ [b]) ++ [a]).
  apply ordered_snoc; [| exact Hab].
  apply (IH Htail).
Qed.

Lemma forallb_rev {A : Type} (p : A -> bool) (l : list A) :
  forallb p (rev l) = forallb p l.
Proof.
  induction l as [| a l IH]; simpl; [reflexivity |].
  rewrite forallb_app, IH. simpl. rewrite andb_true_r. apply andb_comm.
Qed.

Lemma select_map_filter {A : Type} (p : A -> bool) (l : list A) :
  select (map p l) l = filter p l.
Proof.
  induction l as [| a l IH]; simpl; [reflexivity |].
  rewrite IH. reflexivity.
Qed.

(** Taking from a list the positions at which a mask computed from it is
    true gives the elements at which it is true. *)
Lemma take_select_seq {A : Type} (d : A) (p : A -> bool) (l : list A) :
  forall pre : list A,
    take d (pre ++ l) (select (map p l) (seq (List.length pre) (List.length l)))
    = filter p l.
Proof.
  unfold take.
  induction l as [| a l IH]; intros pre; simpl; [reflexivity |].
  assert (forall m : list nat, map (fun i => nth i (pre ++ a :: l) d) m
                               = map (fun i => nth i ((pre ++ [a]) ++ l) d) m) as Hshift
    by (intros m; now rewrite <- app_assoc).
  specialize (IH (pre ++ [a])).
  rewrite length_app, Nat.add_1_r in IH.
  destruct (p a); simpl.
  - rewrite nth_middle. f_equal. rewrite Hshift. exact IH.
  - rewrite Hshift. exact IH.
Qed.

Lemma take_seq {A : Type} (d : A) (l : list A) :
  take d l (seq 0 (List.length l)) = l.
Proof.
  pose proof (take_select_seq d (fun _ => true) l []) as H. simpl in H.
  replace (select (map (fun _ : A => true) l) (seq 0 (List.length l)))
    with (seq 0 (List.length l)) in H.
  - rewrite H. clear H. induction l as [| a l IH]; simpl; [reflexivity | now rewrite IH].
  - clear H. generalize 0 as start.
    induction l as [| a l IH]; intros start; simpl; [reflexivity | now rewrite <- IH].
Qed.

Lemma take_permutation {A : Type} (d : A) (l : list A) (indexer : list nat) :
  Permutation indexer (seq 0 (List.length l)) -> Permutation (take d l indexer) l.
Proof.
  intros H. rewrite <- (take_seq d l) at 2.
  unfold take. now apply Permutation_map.
Qed.

(** [a[idx[indexer]] = (a[idx])[indexer]] *)
Lemma take_take {A : Type} (d : A) (a : list A) (idx indexer : list nat) :
  (forall j, In j indexer -> j < List.length idx) ->
  take d a (take 0 idx indexer) = take d (take d a idx) indexer.
Proof.
  intros Hrange. unfold take. rewrite map_map.
  apply map_ext_in. intros j Hj.
  rewrite (nth_indep (map (fun i => nth i a d) idx) d (nth 0 a d))
    by (rewrite length_map; now apply Hrange).
  now rewrite (map_nth (fun i => nth i a d)).
Qed.

Lemma take_map {A B : Type} (d : A) (f : A -> B) (l : list A) (indexer : list nat) :
  map f (take d l indexer) = take (f d) (map f l) indexer.
Proof.
  unfold take. rewrite map_map. apply map_ext. intros i.
  symmetry. apply map_nth.
Qed.

Lemma filter_partition_permutation {A : Type} (p : A -> bool) (l : list A) :
  Permutation (filter p l ++ filter (fun a => negb (p a)) l) l.
Proof.
  induction l as [| a l IH]; simpl; [constructor |].
  destruct (p a); simpl.
  - now constructor.
  - apply Permutation_sym. apply Permutation_cons_app. now apply Permutation_sym.
Qed.

Lemma filter_all {A : Type} (p : A -> bool) (l : list A) :
  forallb p l = true -> filter p l = l.
Proof.
  induction l as [| a l IH]; simpl; [reflexivity |].
  intros H. apply andb_true_iff in H. destruct H as [Ha Hl].
  now rewrite Ha, IH.
Qed.

Lemma filter_none {A : Type} (p : A -> bool) (l : list A) :
  forallb (fun a => negb (p a)) l = true -> filter p l = [].
Proof.
  induction l as [| a l IH]; simpl; [reflexivity |].
  intros H. apply andb_true_iff in H. destruct H as [Ha Hl].
  apply negb_true_iff in Ha. now rewrite Ha, IH.
Qed.

Lemma forallb_filter_self {A : Type} (p : A -> bool) (l : list A) :
  forallb p (filter p l) = true.
Proof.
  apply forallb_forall. intros a Ha. apply filter_In in Ha. tauto.
Qed.

Lemma forallb_permutation {A : Type} (p : A -> bool) (l l' : list A) :
  Permutation l l' -> forallb p l' = true -> forallb p l = true.
Proof.
  intros Hperm H. apply forallb_forall. intros a Ha.
  rewrite forallb_forall in H. apply H. now apply (Permutation_in a Hperm).
Qed.

Lemma comparable_keys_rev (ks : list scalar) :
  comparable_keys (rev ks) = comparable_keys ks.
Proof. unfold comparable_keys. now rewrite !forallb_rev. Qed.

Section SortValues.

Variable argsort : argsort_fn.
Hypothesis argsort_ok : argsort_sorts argsort.

Lemma argsort_in_range (ks : list scalar) (j : nat) :
  In j (argsort ks) -> j < List.length ks.
Proof.
  intros Hj. destruct (argsort_ok ks) as [Hperm _].
  apply (Permutation_in j Hperm) in Hj. apply in_seq in Hj. lia.
Qed.

(** The rows taken in the order of [nargsort]: the rows whose key is not
    null, permuted into key order, then the rows whose key is null, as
    they were. *)
Lemma nargsort_rows (rs : list (Z * list scalar)) (k : nat) (ascending : bool) :
  comparable_keys (filter notna (map (cell k) rs)) = true ->
  exists part,
    take no_row rs (nargsort argsort (map (cell k) rs) ascending)
      = part ++ filter (fun r => isna (cell k r)) rs /\
    Permutation part (filter (fun r => notna (cell k r)) rs) /\
    ordered (key_order k ascending) part = true.
Proof.
  intros Hcmp. unfold nargsort.
  rewrite length_map, !map_map.
  change (map (fun x => negb (isna (cell k x))) rs)
    with (map (fun r => notna (cell k r)) rs).
  set (NN := filter (fun r => notna (cell k r)) rs).
  set (idx := select (map (fun r => notna (cell k r)) rs) (seq 0 (List.length rs))).
  assert (take no_row rs idx = NN) as Hidx
    by exact (take_select_seq no_row (fun r => notna (cell k r)) rs []).
  assert (take no_row rs
            (select (map (fun r => isna (cell k r)) rs) (seq 0 (List.length rs)))
          = filter (fun r => isna (cell k r)) rs) as Hnan
    by exact (take_select_seq no_row (fun r => isna (cell k r)) rs []).
  assert (select (map (fun r => notna (cell k r)) rs) (map (cell k) rs)
          = map (cell k) NN) as Hnn.
  { unfold NN. rewrite <- (filter_map_swap notna (cell k) rs).
    rewrite <- (select_map_filter notna (map (cell k) rs)).
    now rewrite map_map. }
  rewrite Hnn.
  rewrite (filter_map_swap notna (cell k) rs) in Hcmp. fold NN in Hcmp.
  assert (List.length idx = List.length NN) as Hlen
    by (rewrite <- Hidx; unfold take; now rewrite length_map).
  assert (cell k no_row = SNull) as Hd by (unfold cell; simpl; apply nth_nil_SNull).
  destruct ascending.
  - (* ascending *)
    set (indexer := argsort (map (cell k) NN)).
    exists (take no_row NN indexer).
    destruct (argsort_ok (map (cell k) NN)) as [Hperm Hsorted].
    fold indexer in Hperm, Hsorted.
    rewrite length_map in Hperm.
    split; [| split].
    + unfold take at 1. rewrite map_app.
      change (map (fun i => nth i rs no_row) (take 0 idx indexer))
        with (take no_row rs (take 0 idx indexer)).
      rewrite take_take.
      * rewrite Hidx. f_equal. exact Hnan.
      * intros j Hj. apply argsort_in_range in Hj.
        rewrite length_map in Hj. lia.
    + now apply take_permutation.
    + unfold key_order.
      rewrite <- (ordered_map scalar_le (cell k)).
      rewrite take_map, Hd. now apply Hsorted.
  - (* descending *)
    set (indexer := argsort (rev (map (cell k) NN))).
    exists (rev (take no_row (rev NN) indexer)).
    destruct (argsort_ok (rev (map (cell k) NN))) as [Hperm Hsorted].
    fold indexer in Hperm, Hsorted.
    rewrite length_rev, length_map in Hperm.
    rewrite comparable_keys_rev in Hsorted.
    split; [| split].
    + unfold take at 1. rewrite map_app, map_rev.
      change (map (fun i => nth i rs no_row) (take 0 (rev idx) indexer))
        with (take no_row rs (take 0 (rev idx) indexer)).
      rewrite take_take.
      * unfold take at 2. rewrite map_rev.
        change (map (fun i => nth i rs no_row) idx) with (take no_row rs idx).
        rewrite Hidx. f_equal. exact Hnan.
      * intros j Hj. apply argsort_in_range in Hj.
        rewrite length_rev, length_map in Hj. rewrite length_rev. lia.
    + apply Permutation_trans with (l' := take no_row (rev NN) indexer);
        [apply Permutation_sym, Permutation_rev |].
      apply Permutation_trans with (l' := rev NN);
        [| apply Permutation_sym, Permutation_rev].
      apply take_permutation. now rewrite length_rev.
    + unfold key_order.
      apply (ordered_rev (fun r1 r2 => scalar_le (cell k r1) (cell k r2))).
      rewrite <- (ordered_map scalar_le (cell k)).
      rewrite take_map, Hd, map_rev. now apply Hsorted.
Qed.

(** The rows in the order of [nargsort], written out. *)
Lemma nargsort_take (rs : list (Z * list scalar)) (k : nat) (ascending : bool) :
  take no_row rs (nargsort argsort (map (cell k) rs) ascending)
  = (if ascending
     then take no_row (filter (fun r => notna (cell k r)) rs)
               (argsort (map (cell k) (filter (fun r => notna (cell k r)) rs)))
     else rev (take no_row (rev (filter (fun r => notna (cell k r)) rs))
                    (argsort (rev (map (cell k) (filter (fun r => notna (cell k r)) rs))))))
    ++ filter (fun r => isna (cell k r)) rs.
Proof.
  unfold nargsort.
  rewrite length_map, !map_map.
  change (map (fun x => negb (isna (cell k x))) rs)
    with (map (fun r => notna (cell k r)) rs).
  set (NN := filter (fun r => notna (cell k r)) rs).
  set (idx := select (map (fun r => notna (cell k r)) rs) (seq 0 (List.length rs))).
  assert (take no_row rs idx = NN) as Hidx
    by exact (take_select_seq no_row (fun r => notna (cell k r)) rs []).
  assert (take no_row rs
            (select (map (fun r => isna (cell k r)) rs) (seq 0 (List.length rs)))
          = filter (fun r => isna (cell k r)) rs) as Hnan
    by exact (take_select_seq no_row (fun r => isna (cell k r)) rs []).
  assert (select (map (fun r => notna (cell k r)) rs) (map (cell k) rs)
          = map (cell k) NN) as Hnn.
  { unfold NN. rewrite <- (filter_map_swap notna (cell k) rs).
    rewrite <- (select_map_filter notna (map (cell k) rs)).
    now rewrite map_map. }
  rewrite Hnn.
  assert (List.length idx = List.length NN) as Hlen
    by (rewrite <- Hidx; unfold take; now rewrite length_map).
  destruct ascending.
  - unfold take at 1. rewrite map_app.
    change (map (fun i => nth i rs no_row) (take 0 idx (argsort (map (cell k) NN))))
      with (take no_row rs (take 0 idx (argsort (map (cell k) NN)))).
    rewrite take_take.
    + rewrite Hidx. f_equal. exact Hnan.
    + intros j Hj. apply argsort_in_range in Hj. rewrite length_map in Hj. lia.
  - unfold take at 1. rewrite map_app, map_rev.
    change (map (fun i => nth i rs no_row)
                (take 0 (rev idx) (argsort (rev (map (cell k) NN)))))
      with (take no_row rs (take 0 (rev idx) (argsort (rev (map (cell k) NN))))).
    rewrite take_take.
    + unfold take at 2. rewrite map_rev.
      change (map (fun i => nth i rs no_row) idx) with (take no_row rs idx).
      rewrite Hidx. f_equal. exact Hnan.
    + intros j Hj. apply argsort_in_range in Hj.
      rewrite length_rev, length_map in Hj. rewrite length_rev. lia.
Qed.

(** Rows taken in the order of a sort that keeps equal keys in input
    order: the rows with a given key are in the order they had. *)
Lemma take_rows_with_key (l : list (Z * list scalar)) (k : nat) (v : scalar) :
  argsort_stable argsort ->
  comparable_keys (map (cell k) l) = true ->
  rows_with_key k v (take no_row l (argsort (map (cell k) l))) = rows_with_key k v l.
Proof.
  intros Hstable Hcmp. unfold rows_with_key, take.
  assert (forall i, nth i (map (cell k) l) SNull = cell k (nth i l no_row)) as Hkey.
  { intros i. replace SNull with (cell k no_row)
      by (unfold cell; simpl; apply nth_nil_SNull).
    apply map_nth. }
  rewrite (filter_map_swap (fun r => scalar_same (cell k r) v)
                           (fun i => nth i l no_row)).
  rewrite (filter_ext (fun i => scalar_same (cell k (nth i l no_row)) v)
                      (fun i => scalar_same (nth i (map (cell k) l) SNull) v))
    by (intros i; now rewrite Hkey).
  rewrite (Hstable (map (cell k) l) v Hcmp).
  rewrite length_map.
  rewrite (filter_ext (fun i => scalar_same (nth i (map (cell k) l) SNull) v)
                      (fun i => scalar_same (cell k (nth i l no_row)) v))
    by (intros i; now rewrite Hkey).
  rewrite <- (filter_map_swap (fun r => scalar_same (cell k r) v)
                              (fun i => nth i l no_row)).
  change (map (fun i => nth i l no_row) (seq 0 (List.length l)))
    with (take no_row l (seq 0 (List.length l))).
  now rewrite take_seq.
Qed.

(** The rows with a given key are all null in that column, or none is. *)
Lemma rows_with_key_split (rs : list (Z * list scalar)) (k : nat) (v : scalar) :
  rows_with_key k v (filter (fun r => notna (cell k r)) rs)
  ++ rows_with_key k v (filter (fun r => isna (cell k r)) rs)
  = rows_with_key k v rs.
Proof.
  unfold rows_with_key. rewrite !filter_filter.
  destruct (isna v) eqn:Hv.
  - destruct v; try discriminate.
    rewrite (filter_ext (fun a => notna (cell k a) && scalar_same (cell k a) SNull)
                        (fun _ => false))
      by (intros r; unfold notna; destruct (cell k r) as [| n | t | []]; reflexivity).
    rewrite filter_false. simpl. apply filter_ext.
    intros r. destruct (cell k r) as [| n | t | []]; reflexivity.
  - rewrite (filter_ext (fun a => isna (cell k a) && scalar_same (cell k a) v)
                        (fun _ => false))
      by (intros r; destruct (cell k r) as [| n | t | []]; try reflexivity;
          destruct v as [| n | t | []]; try discriminate; reflexivity).
    rewrite filter_false, app_nil_r. apply filter_ext.
    intros r. unfold notna. destruct (cell k r) as [| n | t | []]; try reflexivity.
    destruct v as [| n | t | []]; try discriminate; reflexivity.
Qed.

(** With a sort that keeps equal keys in input order, so does the sorted
    table, ascending or descending. *)
Lemma nargsort_rows_with_key (rs : list (Z * list scalar)) (k : nat) (ascending : bool)
  (v : scalar) :
  argsort_stable argsort ->
  comparable_keys (filter notna (map (cell k) rs)) = true ->
  rows_with_key k v (take no_row rs (nargsort argsort (map (cell k) rs) ascending))
  = rows_with_key k v rs.
Proof.
  intros Hstable Hcmp.
  rewrite (filter_map_swap notna (cell k) rs) in Hcmp.
  rewrite nargsort_take.
  rewrite <- (rows_with_key_split rs k v).
  unfold rows_with_key at 1. rewrite filter_app.
  fold (rows_with_key k v (filter (fun r => isna (cell k r)) rs)).
  f_equal.
  destruct ascending.
  - now apply take_rows_with_key.
  - rewrite filter_rev.
    rewrite <- map_rev in *.
    fold (rows_with_key k v
            (take no_row (rev (filter (fun r => notna (cell k r)) rs))
                  (argsort (map (cell k) (rev (filter (fun r => notna (cell k r)) rs)))))).
    rewrite take_rows_with_key
      by (try exact Hstable; rewrite map_rev, comparable_keys_rev; exact Hcmp).
    unfold rows_with_key. rewrite filter_rev. apply rev_involutive.
Qed.


End SortValues.

(** *** The insertion sorts keep the promise *)

Lemma scalar_le_total (ks : list scalar) (a b : scalar) :
  comparable_keys ks = true -> In a ks -> In b ks ->
  scalar_le a b = true \/ scalar_le b a = true.
Proof.
  unfold comparable_keys. intros H Ha Hb.
  apply orb_true_iff in H. destruct H as [H | H];
    rewrite forallb_forall in H; pose proof (H a Ha) as Ha'; pose proof (H b Hb) as Hb'.
  - unfold is_number in Ha', Hb'. unfold scalar_le.
    destruct (as_number a) as [x |] eqn:Hx; [| discriminate].
    destruct (as_number b) as [y |] eqn:Hy; [| discriminate].
    destruct a; try discriminate; destruct b; try discriminate;
      rewrite ?Hx, ?Hy; rewrite !Z.leb_le; lia.
  - destruct a; try discriminate. destruct b; try discriminate.
    simpl. apply String.leb_total.
Qed.

Section InsertionArgsort.

Variable ties_first : bool.
Variable ks : list scalar.

Let R (i j : nat) : bool := scalar_le (nth i ks SNull) (nth j ks SNull).

Lemma insert_index_permutation (i : nat) (l : list nat) :
  Permutation (insert_index ties_first ks i l) (i :: l).
Proof.
  induction l as [| j l IH]; simpl; [apply Permutation_refl |].
  destruct (goes_before _ _ _); [apply Permutation_refl |].
  apply Permutation_trans with (l' := j :: i :: l); [now constructor | constructor].
Qed.

Lemma insertion_permutation (l : list nat) :
  Permutation (fold_right (insert_index ties_first ks) [] l) l.
Proof.
  induction l as [| i l IH]; simpl; [constructor |].
  apply Permutation_trans with (l' := i :: fold_right (insert_index ties_first ks) [] l);
    [apply insert_index_permutation | now constructor].
Qed.

Lemma goes_before_true (i j : nat) :
  R i j = true \/ R j i = true ->
  goes_before ties_first (nth i ks SNull) (nth j ks SNull) = true -> R i j = true.
Proof.
  unfold goes_before, R. destruct ties_first; intros Htotal H; [exact H |].
  apply negb_true_iff in H. destruct Htotal as [Hij | Hji]; congruence.
Qed.

Lemma goes_before_false (i j : nat) :
  R i j = true \/ R j i = true ->
  goes_before ties_first (nth i ks SNull) (nth j ks SNull) = false -> R j i = true.
Proof.
  unfold goes_before, R. destruct ties_first; intros Htotal H.
  - destruct Htotal as [Hij | Hji]; congruence.
  - now apply negb_false_iff in H.
Qed.

Lemma insert_index_ordered (i : nat) (l : list nat) :
  (forall j, In j l -> R i j = true \/ R j i = true) ->
  ordered R l = true ->
  ordered R (insert_index ties_first ks i l) = true.
Proof.
  induction l as [| j l IH]; intros Htotal Hord; [reflexivity |].
  simpl insert_index.
  destruct (goes_before _ _ _) eqn:Hgb.
  - change (R i j && ordered R (j :: l) = true).
    rewrite Hord, andb_true_r.
    apply goes_before_true; [apply Htotal; now left | exact Hgb].
  - apply goes_before_false in Hgb; [| apply Htotal; now left].
    simpl in Hord. apply andb_true_iff in Hord. destruct Hord as [Hhead Htail].
    assert (ordered R (insert_index ties_first ks i l) = true) as Hrest
      by (apply IH; [intros j' Hj'; apply Htotal; now right | exact Htail]).
    simpl. rewrite Hrest, andb_true_r.
    destruct l as [| j' l]; simpl; [exact Hgb |].
    destruct (goes_before _ _ _); [exact Hgb | exact Hhead].
Qed.

Hypothesis ks_comparable : comparable_keys ks = true.

Lemma insertion_ordered (l : list nat) :
  (forall j, In j l -> j < List.length ks) ->
  ordered R (fold_right (insert_index ties_first ks) [] l) = true.
Proof.
  induction l as [| i l IH]; intros Hrange; simpl; [reflexivity |].
  apply insert_index_ordered.
  - intros j Hj.
    apply (Permutation_in j (insertion_permutation l)) in Hj.
    apply (scalar_le_total ks); [exact ks_comparable | |];
      apply nth_In; apply Hrange; [now left | now right].
  - apply IH. intros j Hj. apply Hrange. now right.
Qed.

End InsertionArgsort.

Lemma insertion_argsort_sorts (ties_first : bool) :
  argsort_sorts (insertion_argsort ties_first).
Proof.
  intros ks. unfold insertion_argsort. split.
  - apply insertion_permutation.
  - intros Hcmp. unfold take. rewrite ordered_map.
    apply insertion_ordered; [exact Hcmp |].
    intros j Hj. apply in_seq in Hj. lia.
Qed.

(** *** An insertion sort keeps equal keys in input order *)

Lemma scalar_same_le (a b v : scalar) :
  a <> SNull -> scalar_same a v = true -> scalar_same b v = true ->
  scalar_le a b = true.
Proof.
  intros Ha Hav Hbv.
  destruct a as [| x | x | []]; [congruence | | | |];
    destruct v as [| z | z | []]; unfold scalar_same, as_number in Hav;
    try discriminate;
    destruct b as [| y | y | []]; unfold scalar_same, as_number in Hbv;
    try discriminate;
    rewrite ?Z.eqb_eq, ?String.eqb_eq in *; subst;
    unfold scalar_le, as_number;
    try (apply Z.leb_le; lia);
    try (destruct (String.leb_total z z) as [H | H]; exact H).
Qed.

Lemma comparable_keys_notna (ks : list scalar) (j : nat) :
  comparable_keys ks = true -> j < List.length ks -> nth j ks SNull <> SNull.
Proof.
  unfold comparable_keys. intros H Hj Hnull.
  assert (In (nth j ks SNull) ks) as Hin by (now apply nth_In).
  rewrite Hnull in Hin.
  apply orb_true_iff in H. destruct H as [H | H];
    rewrite forallb_forall in H; specialize (H SNull Hin); discriminate.
Qed.

Lemma insert_index_with_key (ks : list scalar) (v : scalar) (i : nat) (l : list nat) :
  nth i ks SNull <> SNull ->
  filter (fun j => scalar_same (nth j ks SNull) v) (insert_index true ks i l)
  = filter (fun j => scalar_same (nth j ks SNull) v) (i :: l).
Proof.
  intros Hi. induction l as [| j l IH]; [reflexivity |].
  simpl insert_index. unfold goes_before.
  destruct (scalar_le (nth i ks SNull) (nth j ks SNull)) eqn:Hle; [reflexivity |].
  cbn [filter]. rewrite IH. cbn [filter].
  destruct (scalar_same (nth i ks SNull) v) eqn:Hsi;
    destruct (scalar_same (nth j ks SNull) v) eqn:Hsj; try reflexivity.
  rewrite (scalar_same_le _ _ v Hi Hsi Hsj) in Hle. discriminate.
Qed.

Lemma insertion_with_key (ks : list scalar) (v : scalar) (l : list nat) :
  (forall j, In j l -> nth j ks SNull <> SNull) ->
  filter (fun j => scalar_same (nth j ks SNull) v)
         (fold_right (insert_index true ks) [] l)
  = filter (fun j => scalar_same (nth j ks SNull) v) l.
Proof.
  induction l as [| i l IH]; intros Hl; [reflexivity |].
  cbn [fold_right]. rewrite insert_index_with_key by (apply Hl; now left).
  cbn [filter]. rewrite IH by (intros j Hj; apply Hl; now right). reflexivity.
Qed.

Lemma insertion_argsort_stable : argsort_stable (insertion_argsort true).
Proof.
  intros ks v Hcmp. unfold insertion_argsort.
  apply insertion_with_key. intros j Hj. apply in_seq in Hj.
  apply comparable_keys_notna; [exact Hcmp | lia].
Qed.


Example sort_data_descending_scores :
  rows (fst (sort_data (insertion_argsort true) empty_state table_scores "A" false)) =
  [(0%Z, [SInt 3; SStr "p"]); (3%Z, [SInt 3; SStr "s"]);
   (2%Z, [SInt 1; SStr "r"]); (1%Z, [SNull; SStr "q"])].
Proof. reflexivity. Qed.

Lemma argsort_singleton (argsort : argsort_fn) (v : scalar) :
  argsort_sorts argsort -> argsort [v] = [0].
Proof.
  intros H. destruct (H [v]) as [Hperm _]. simpl in Hperm.
  apply Permutation_sym in Hperm. now apply Permutation_length_1_inv in Hperm.
Qed.


(** On a table with ties: the two rows of 1, 1 stay in input order. *)
Example sort_data_ties_in_input_order :
  rows (fst (sort_data (insertion_argsort true) empty_state table_ties "A" true))
  = rows table_ties /\
  rows (fst (sort_data (insertion_argsort true) empty_state table_ties "A" false))
  = rows table_ties.
Proof. split; reflexivity. Qed.

(** * Further properties *)

(** ** apply_rules: what a run without error returns *)

Lemma mapM_mask {A B : Type} (f : B -> result bool) (g : A -> B) (l : list A) :
  forall mask, mapM f (map g l) = Ok mask ->
    mask = map (fun a => match f (g a) with Ok b => b | Raise _ => false end) l.
Proof.
  induction l as [| x l IH]; intros mask Hm; simpl in *.
  - now injection Hm as <-.
  - unfold bind in Hm. destruct (f (g x)) as [b |]; [| discriminate].
    destruct (mapM f (map g l)) as [bs |]; [| discriminate].
    injection Hm as <-. f_equal. now apply IH.
Qed.

Lemma filter_by_rows (df df' : DataFrame) (c : string) (op : cmp_op) (v : scalar) :
  filter_by df c op v = Ok df' ->
  exists k, get_loc c (columns df) = Some k /\
    df' = {| columns := columns df;
             rows := filter (fun r => cell_passes op (cell k r) v) (rows df) |}.
Proof.
  unfold filter_by, getitem, bind.
  destruct (get_loc c (columns df)) as [k |]; [| discriminate].
  destruct (mapM _ _) as [mask |] eqn:Hmask; [| discriminate].
  intros H. injection H as <-. exists k. split; [reflexivity |].
  apply mapM_mask in Hmask. subst mask.
  unfold getitem_mask. f_equal.
  apply (select_map_filter (fun r => cell_passes op (cell k r) v)).
Qed.

Lemma apply_rule_rows (df df' : DataFrame) (rule : Rule) :
  apply_rule df rule = Ok df' ->
  df' = {| columns := columns df;
           rows := filter (rule_holds (columns df) rule) (rows df) |}.
Proof.
  unfold apply_rule, rule_holds, rule_op.
  destruct (String.eqb (condition rule) "greater_than");
    [| destruct (String.eqb (condition rule) "less_than");
       [| destruct (String.eqb (condition rule) "equals")]].
  4: { intros H. injection H as <-. rewrite filter_true. now destruct df. }
  all: intros H; apply filter_by_rows in H; destruct H as [k [Hk ->]];
    rewrite Hk; reflexivity.
Qed.


Lemma apply_rules_loop_rows (rules : list Rule) :
  forall df df', apply_rules_loop df rules = (df', None) -> df' = rows_passing df rules.
Proof.
  unfold rows_passing.
  induction rules as [| rule rules IH]; intros df df' H; simpl in H.
  - injection H as <-. simpl. rewrite filter_true. now destruct df.
  - destruct (apply_rule df rule) as [df1 |] eqn:H1; [| discriminate].
    apply apply_rule_rows in H1. apply IH in H. subst df1 df'. simpl.
    f_equal. apply filter_filter.
Qed.

(** The table returned when the loop ends without an exception. *)
Lemma apply_rules_of_loop_None (s : State) (df : DataFrame) (rules : list Rule) :
  snd (apply_rules_loop df rules) = None ->
  fst (apply_rules s df rules) = rows_passing df rules.
Proof.
  intros H. unfold apply_rules.
  destruct (apply_rules_loop df rules) as [df' [e |]] eqn:Hloop; [discriminate |].
  apply apply_rules_loop_rows in Hloop. now subst df'.
Qed.

(** X1. On a table with distinct column names and with rules that do not
    order by a string: when no rule raises, the table returned is the input
    table with exactly the rows that pass every rule, tested on the input
    table: the columns, the row labels and the row order are those of the
    input, and the log entry reports the number of those rows. *)
Theorem apply_rules_returns_passing_rows :
  forall (s : State) (df : DataFrame) (rules : list Rule),
    NoDup (columns df) ->
    no_string_order rules ->
    snd (apply_rules_loop df rules) = None ->
    apply_rules s df rules =
      (rows_passing df rules,
       {| log := log s ++
                 [{| action := "apply_rules";
                     details := "Applied rules: " +++ repr_list repr_rule rules
                                +++ ". Remaining rows: "
                                +++ str_of_nat (len (rows_passing df rules)) |}];
          page := page s |}).
Proof.
  intros s df rules _ _ H. unfold apply_rules.
  destruct (apply_rules_loop df rules) as [df' [e |]] eqn:Hloop; [discriminate |].
  apply apply_rules_loop_rows in Hloop. subst df'. reflexivity.
Qed.

Lemma no_string_order_numbers (rules : list Rule) :
  forallb (fun rule => negb (orders_by_string rule)) rules = true ->
  no_string_order rules.
Proof.
  intros H rule Hin. rewrite forallb_forall in H.
  apply negb_true_iff. now apply H.
Qed.

Lemma table_A_columns : NoDup (columns table_A).
Proof. simpl. repeat constructor. simpl. tauto. Qed.

Lemma table_AB_columns : NoDup (columns table_AB).
Proof. simpl. repeat constructor; simpl; intuition discriminate. Qed.

Lemma apply_rules_returns_passing_rows_witness :
  NoDup (columns table_A) /\
  no_string_order [rule_A_gt_10; mkRule "A" "less_than" (SInt 20)] /\
  snd (apply_rules_loop table_A [rule_A_gt_10; mkRule "A" "less_than" (SInt 20)]) = None /\
  fst (apply_rules empty_state table_A [rule_A_gt_10; mkRule "A" "less_than" (SInt 20)]) =
    {| columns := ["A"]; rows := [(1%Z, [SInt 15])] |}.
Proof.
  assert (no_string_order [rule_A_gt_10; mkRule "A" "less_than" (SInt 20)]) as Hrules
    by (apply no_string_order_numbers; reflexivity).
  split; [exact table_A_columns |]. split; [exact Hrules |]. split; [reflexivity |].
  rewrite (apply_rules_returns_passing_rows empty_state table_A
             [rule_A_gt_10; mkRule "A" "less_than" (SInt 20)]
             table_A_columns Hrules eq_refl).
  reflexivity.
Defined.

Lemma forallb_permutation_eq {A : Type} (p : A -> bool) (l l' : list A) :
  Permutation l l' -> forallb p l = forallb p l'.
Proof.
  intros H. induction H; simpl.
  - reflexivity.
  - now rewrite IHPermutation.
  - rewrite !andb_assoc. f_equal. apply andb_comm.
  - congruence.
Qed.

(** X2. On a table with distinct column names and with rules that do not
    order by a string, the order of the rules does not matter when neither
    order raises: two rule lists that are permutations of each other return
    the same table. *)
Theorem apply_rules_order_irrelevant :
  forall (s s' : State) (df : DataFrame) (rules rules' : list Rule),
    NoDup (columns df) ->
    no_string_order rules ->
    Permutation rules rules' ->
    snd (apply_rules_loop df rules) = None ->
    snd (apply_rules_loop df rules') = None ->
    fst (apply_rules s df rules) = fst (apply_rules s' df rules').
Proof.
  intros s s' df rules rules' _ _ Hperm H H'.
  rewrite (apply_rules_of_loop_None s df rules H).
  rewrite (apply_rules_of_loop_None s' df rules' H').
  unfold rows_passing. f_equal.
  apply filter_ext. intros r. now apply forallb_permutation_eq.
Qed.

Lemma apply_rules_order_irrelevant_witness :
  fst (apply_rules empty_state table_A [rule_A_gt_10; mkRule "A" "less_than" (SInt 20)]) =
  fst (apply_rules empty_state table_A [mkRule "A" "less_than" (SInt 20); rule_A_gt_10]).
Proof.
  apply apply_rules_order_irrelevant.
  - exact table_A_columns.
  - apply no_string_order_numbers. reflexivity.
  - apply perm_swap.
  - reflexivity.
  - reflexivity.
Defined.

(** X3. On a table with distinct column names and with rules that do not
    order by a string: when a rule raises, the table returned is the input
    with the rows that pass the rules before the failing one; the error is
    shown once and nothing is logged. *)
Theorem apply_rules_error_returns_prefix_result :
  forall (s : State) (df : DataFrame) (rules : list Rule) (e : exn),
    NoDup (columns df) ->
    no_string_order rules ->
    snd (apply_rules_loop df rules) = Some e ->
    exists before rule after,
      rules = before ++ rule :: after /\
      snd (apply_rules_loop df before) = None /\
      apply_rule (rows_passing df before) rule = Raise e /\
      apply_rules s df rules =
        (rows_passing df before,
         {| log := log s;
            page := page s ++ [st_error "Error applying rules: " (Some e)] |}).
Proof.
  intros s df rules e _ _ H. unfold apply_rules.
  destruct (apply_rules_loop df rules) as [df' [e' |]] eqn:Hloop; [| discriminate].
  simpl in H. injection H as ->.
  destruct (apply_rules_loop_Raise rules df df' e Hloop)
    as [before [rule [after [Heq [Hb Hr]]]]].
  exists before, rule, after.
  pose proof (apply_rules_loop_rows before df df' Hb) as Hdf. subst df'.
  rewrite Hb. repeat split; auto.
Qed.

Lemma apply_rules_error_returns_prefix_result_witness :
  exists before rule after,
    [rule_A_gt_20; rule_Z_lt_1; rule_A_gt_10] = before ++ rule :: after /\
    snd (apply_rules_loop table_A before) = None /\
    apply_rule (rows_passing table_A before) rule = Raise (KeyError (SStr "Z")) /\
    apply_rules empty_state table_A [rule_A_gt_20; rule_Z_lt_1; rule_A_gt_10] =
      (rows_passing table_A before,
       {| log := [];
          page := [st_error "Error applying rules: " (Some (KeyError (SStr "Z")))] |}).
Proof.
  exact (apply_rules_error_returns_prefix_result empty_state table_A
           [rule_A_gt_20; rule_Z_lt_1; rule_A_gt_10] (KeyError (SStr "Z"))
           table_A_columns
           (no_string_order_numbers [rule_A_gt_20; rule_Z_lt_1; rule_A_gt_10] eq_refl)
           eq_refl).
Defined.

(** ** apply_rules: nulls *)

Lemma compare_cell_null_value (op : cmp_op) (x : scalar) :
  compare_cell op x SNull = Ok false.
Proof. unfold compare_cell. simpl. now rewrite orb_true_r. Qed.

Lemma mapM_all_false {A : Type} (f : A -> result bool) (l : list A) :
  (forall a, f a = Ok false) -> mapM f l = Ok (map (fun _ => false) l).
Proof.
  intros Hf. induction l as [| a l IH]; simpl; [reflexivity |].
  now rewrite Hf, IH.
Qed.

Lemma select_all_false {A B : Type} (l : list A) (l' : list B) :
  select (map (fun _ => false) l') l = [].
Proof.
  revert l; induction l' as [| b l' IH]; intros [| a l]; simpl; auto.
Qed.

(** X4. On a table with distinct column names, a rule with one of the
    three conditions that does not order by a string never keeps a row
    whose cell in the rule's column is null; and when the rule's own value
    is null, no row is kept at all and no comparison fails, whatever the
    column holds. *)
Theorem apply_rule_drops_nulls :
  forall (df : DataFrame) (rule : Rule) (op : cmp_op) (k : nat),
    NoDup (columns df) ->
    orders_by_string rule = false ->
    rule_op rule = Some op ->
    get_loc (column rule) (columns df) = Some k ->
    (forall df', apply_rule df rule = Ok df' ->
                 forall r, In r (rows df') -> notna (cell k r) = true) /\
    (value rule = SNull ->
     apply_rule df rule = Ok {| columns := columns df; rows := [] |}).
Proof.
  intros df rule op k _ _ Hop Hk. split.
  - intros df' H r Hr. apply apply_rule_rows in H. subst df'. simpl in Hr.
    apply filter_In in Hr. destruct Hr as [_ Hholds].
    unfold rule_holds in Hholds. rewrite Hop, Hk in Hholds.
    unfold cell_passes, compare_cell, notna in *.
    destruct (isna (cell k r)); [simpl in Hholds; discriminate | reflexivity].
  - intros Hv.
    assert (filter_by df (column rule) op SNull
            = Ok {| columns := columns df; rows := [] |}) as Hf.
    { unfold filter_by, getitem. rewrite Hk. simpl.
      rewrite (mapM_all_false (fun x => compare_cell op x SNull))
        by (intros x; apply compare_cell_null_value).
      simpl. unfold getitem_mask. now rewrite select_all_false. }
    unfold apply_rule. unfold rule_op in Hop. rewrite Hv.
    destruct (String.eqb (condition rule) "greater_than");
      [injection Hop as <-; exact Hf |].
    destruct (String.eqb (condition rule) "less_than");
      [injection Hop as <-; exact Hf |].
    destruct (String.eqb (condition rule) "equals");
      [injection Hop as <-; exact Hf | discriminate].
Qed.

Lemma table_gaps_columns : NoDup (columns table_gaps).
Proof. simpl. repeat constructor; simpl; intuition discriminate. Qed.

Lemma apply_rule_drops_nulls_witness :
  (forall df', apply_rule table_gaps (mkRule "A" "less_than" (SInt 3)) = Ok df' ->
               forall r, In r (rows df') -> notna (cell 0 r) = true) /\
  apply_rule table_gaps (mkRule "B" "equals" SNull)
    = Ok {| columns := ["A"; "B"]; rows := [] |}.
Proof.
  split.
  - exact (proj1 (apply_rule_drops_nulls table_gaps (mkRule "A" "less_than" (SInt 3))
                    op_lt 0 table_gaps_columns eq_refl eq_refl eq_refl)).
  - exact (proj2 (apply_rule_drops_nulls table_gaps (mkRule "B" "equals" SNull)
                    op_eq 1 table_gaps_columns eq_refl eq_refl eq_refl) eq_refl).
Defined.

(** ** remove_duplicates: nothing is lost *)

Lemma scalar_same_refl (a : scalar) : scalar_same a a = true.
Proof.
  destruct a as [| n | s | []]; simpl; auto using Z.eqb_refl, String.eqb_refl.
Qed.

Lemma scalar_same_trans (a b c : scalar) :
  scalar_same a b = true -> scalar_same b c = true -> scalar_same a c = true.
Proof.
  destruct a as [| x | x | []], b as [| y | y | []], c as [| z | z | []];
    unfold scalar_same, as_number; intros H1 H2;
    try discriminate; try reflexivity;
    rewrite ?Z.eqb_eq, ?String.eqb_eq in *; subst;
    try reflexivity; try lia; try congruence.
Qed.

Lemma row_same_refl (r : list scalar) : row_same r r = true.
Proof.
  induction r as [| a r IH]; simpl; [reflexivity |].
  now rewrite scalar_same_refl, IH.
Qed.

Lemma row_same_trans (r1 : list scalar) :
  forall r2 r3, row_same r1 r2 = true -> row_same r2 r3 = true -> row_same r1 r3 = true.
Proof.
  induction r1 as [| a r1 IH]; intros [| b r2] [| c r3]; simpl; try discriminate; auto.
  intros H12 H23.
  apply andb_true_iff in H12. apply andb_true_iff in H23.
  destruct H12 as [Hab H12], H23 as [Hbc H23].
  rewrite (scalar_same_trans a b c Hab Hbc). simpl. now apply (IH r2 r3).
Qed.

Lemma kept_from_represents (rs : list (Z * list scalar)) :
  forall seen r, In r rs ->
    (exists r', In r' (kept_from seen rs) /\ row_same (snd r) (snd r') = true) \/
    (exists x, In x seen /\ row_same (snd r) x = true).
Proof.
  unfold kept_from.
  induction rs as [| r0 rs IH]; intros seen r Hr; [destruct Hr |].
  simpl.
  destruct (existsb (row_same (snd r0)) seen) eqn:Hdup; simpl.
  - apply existsb_exists in Hdup. destruct Hdup as [x0 [Hx0 Hsame0]].
    destruct Hr as [<- | Hr]; [right; now exists x0 |].
    destruct (IH (seen ++ [snd r0]) r Hr) as [Hkept | [x [Hx Hsame]]]; [now left |].
    right. apply in_app_or in Hx. destruct Hx as [Hx | [<- | []]].
    + now exists x.
    + exists x0. split; [exact Hx0 |]. now apply (row_same_trans _ (snd r0)).
  - destruct Hr as [<- | Hr].
    + left. exists r0. split; [now left | apply row_same_refl].
    + destruct (IH (seen ++ [snd r0]) r Hr) as [[r' [Hin Hsame]] | [x [Hx Hsame]]].
      * left. exists r'. split; [now right | exact Hsame].
      * apply in_app_or in Hx. destruct Hx as [Hx | [<- | []]].
        -- right. now exists x.
        -- left. exists r0. split; [now left | exact Hsame].
Qed.

(** X5. Removing duplicates loses no content and leaves no duplicate: every
    row of the input has a row with the same cells in the result, and no
    row of the result has the cells of an earlier row of the result. *)
Theorem remove_duplicates_keeps_one_of_each :
  forall (s : State) (df : DataFrame),
    let cleaned := fst (remove_duplicates s df) in
    (forall r, In r (rows df) ->
       exists r', In r' (rows cleaned) /\ row_same (snd r) (snd r') = true) /\
    duplicated cleaned = map (fun _ => false) (rows cleaned).
Proof.
  intros s df cleaned. subst cleaned. unfold remove_duplicates. simpl. split.
  - intros r Hr.
    destruct (kept_from_represents (rows df) [] r Hr) as [H | [x [[] _]]].
    exact H.
  - unfold duplicated, drop_duplicates, getitem_mask, duplicated. simpl.
    apply (kept_rows_not_duplicated (rows df) [] []). apply incl_refl.
Qed.

(** ** remove_empty_rows *)

Lemma filter_idempotent {A : Type} (p : A -> bool) (l : list A) :
  filter p (filter p l) = filter p l.
Proof.
  rewrite filter_filter. apply filter_ext. intros a. now destruct (p a).
Qed.

(** X6. Removing empty rows twice gives what removing them once gives, and
    the second call reports that it removed no row; the rows left have no
    null cell. *)
Theorem remove_empty_rows_idempotent :
  forall (s s' : State) (df : DataFrame),
    let once := fst (remove_empty_rows s df) in
    remove_empty_rows s' once =
      (once,
       {| log := log s' ++ [{| action := "remove_empty_rows";
                               details := "Removed 0 empty rows." |}];
          page := page s' |}) /\
    (forall r x, In r (rows once) -> In x (snd r) -> x <> SNull).
Proof.
  intros s s' df once. subst once. unfold remove_empty_rows. simpl.
  unfold dropna at 1 4. simpl. rewrite filter_idempotent.
  split.
  - unfold log_action, len, dropna. simpl. now rewrite Z.sub_diag.
  - intros r x Hr Hx. apply filter_In in Hr. destruct Hr as [_ Hall].
    rewrite forallb_forall in Hall. specialize (Hall x Hx).
    intros ->. discriminate.
Qed.

(** X7. After the missing values have been filled with a value, no row is
    empty: removing the empty rows of the filled table returns it as it is
    and reports no row removed. *)
Theorem fill_value_then_remove_empty_rows :
  forall (s s' : State) (df : DataFrame) (v : scalar),
    v <> SNull ->
    let filled := fst (fill_missing_values s df "value" v) in
    remove_empty_rows s' filled =
      (filled,
       {| log := log s' ++ [{| action := "remove_empty_rows";
                               details := "Removed 0 empty rows." |}];
          page := page s' |}).
Proof.
  intros s s' df v Hv filled. subst filled.
  assert (notna v = true) as Hn by (destruct v; [congruence | | |]; reflexivity).
  unfold fill_missing_values, fill_missing_values_body. simpl. rewrite Hn. simpl.
  unfold remove_empty_rows, dropna, len, log_action. simpl.
  rewrite filter_all.
  - rewrite Z.sub_diag. reflexivity.
  - apply forallb_forall. intros r Hr. apply in_map_iff in Hr.
    destruct Hr as [r0 [<- _]]. simpl.
    apply forallb_forall. intros x Hx. apply in_map_iff in Hx.
    destruct Hx as [x0 [<- _]]. unfold notna in *.
    destruct (isna x0) eqn:E; [exact Hn | now rewrite E].
Qed.

Lemma fill_value_then_remove_empty_rows_witness :
  fst (remove_empty_rows empty_state
         (fst (fill_missing_values empty_state table_gaps "value" (SStr "0")))) =
  fst (fill_missing_values empty_state table_gaps "value" (SStr "0")).
Proof.
  rewrite (fill_value_then_remove_empty_rows empty_state empty_state table_gaps (SStr "0")
             ltac:(discriminate)).
  reflexivity.
Defined.

(** ** fill_missing_values with ["bfill"] *)

Lemma nth_rev_column (col : list scalar) (m : nat) :
  m < List.length col ->
  nth m (rev col) SNull = nth (List.length col - S m) col SNull.
Proof. intros H. now apply rev_nth. Qed.

(** Backward fill of one column, cell by cell. *)
Lemma bfill_column_cells (col : list scalar) (i : nat) :
  i < List.length col ->
  (notna (nth i col SNull) = true ->
   nth i (bfill_column col) SNull = nth i col SNull) /\
  (forall j, i < j -> j < List.length col ->
     notna (nth j col SNull) = true ->
     (forall m, i <= m -> m < j -> isna (nth m col SNull) = true) ->
     nth i (bfill_column col) SNull = nth j col SNull) /\
  ((forall j, i <= j -> j < List.length col -> isna (nth j col SNull) = true) ->
   nth i (bfill_column col) SNull = SNull).
Proof.
  intros Hi. unfold bfill_column, ffill_column.
  set (n := List.length col).
  assert (List.length (rev col) = n) as Hrev by apply length_rev.
  assert (nth i (rev (ffill_from SNull (rev col))) SNull
          = nth (n - S i) (ffill_from SNull (rev col)) SNull) as Hnth.
  { rewrite rev_nth by (rewrite ffill_from_length, Hrev; exact Hi).
    now rewrite ffill_from_length, Hrev. }
  rewrite Hnth.
  assert (forall m, m < n -> nth (n - S m) (rev col) SNull = nth m col SNull) as Hback.
  { intros m Hm. rewrite nth_rev_column by (fold n; lia). fold n.
    f_equal. lia. }
  split; [| split].
  - intros Hv. rewrite <- (Hback i Hi) in Hv |- *. now apply ffill_from_notna.
  - intros j Hij Hj Hv Hrun.
    rewrite <- (Hback j Hj) in Hv |- *.
    apply ffill_from_nearest; [lia | rewrite Hrev; lia | exact Hv |].
    intros m Hm1 Hm2.
    replace m with (n - S (n - S m)) by lia.
    rewrite Hback by lia. apply Hrun; lia.
  - intros Hnull. apply ffill_from_leading; [rewrite Hrev; lia |].
    intros j Hj.
    replace j with (n - S (n - S j)) by lia.
    rewrite Hback by lia. apply Hnull; lia.
Qed.

(** X8. Backward fill mirrors forward fill, column by column: a cell that
    is not null keeps its value; a null above a cell [j] that is not null,
    with only nulls in between, takes the value of [j]; a null with only
    nulls below it stays null.  The columns and the row labels stay. *)
Theorem fill_missing_values_bfill :
  forall (s : State) (df : DataFrame) (value : scalar) (i k : nat),
    k < List.length (columns df) ->
    i < len df ->
    let filled := fst (fill_missing_values s df "bfill" value) in
    columns filled = columns df /\
    map fst (rows filled) = map fst (rows df) /\
    (notna (iat df i k) = true -> iat filled i k = iat df i k) /\
    (forall j, i < j -> j < len df ->
       notna (iat df j k) = true ->
       (forall m, i <= m -> m < j -> isna (iat df m k) = true) ->
       iat filled i k = iat df j k) /\
    ((forall j, i <= j -> j < len df -> isna (iat df j k) = true) ->
     iat filled i k = SNull).
Proof.
  intros s df value i k Hk Hi filled. subst filled.
  unfold fill_missing_values, fill_missing_values_body, fillna_method. simpl.
  split; [reflexivity |]. split; [apply map_columns_labels |].
  rewrite (map_columns_iat bfill_column df i k Hk Hi).
  assert (List.length (map (cell k) (rows df)) = len df) as Hlen
    by (unfold len; apply length_map).
  assert (i < List.length (map (cell k) (rows df))) as Hi' by (rewrite Hlen; exact Hi).
  destruct (bfill_column_cells (map (cell k) (rows df)) i Hi') as [H1 [H2 H3]].
  split; [| split].
  - intros Hv. rewrite <- iat_column in Hv |- *. now apply H1.
  - intros j Hij Hj Hv Hrun. rewrite <- (iat_column df j k) in Hv |- *.
    apply H2; [exact Hij | rewrite Hlen; exact Hj | exact Hv |].
    intros m Hm1 Hm2. rewrite iat_column. now apply Hrun.
  - intros Hnull. apply H3. intros j Hj1 Hj2. rewrite iat_column.
    apply Hnull; [exact Hj1 | now rewrite <- Hlen].
Qed.

Lemma fill_missing_values_bfill_witness :
  fst (fill_missing_values empty_state table_gaps "bfill" SNull) =
    {| columns := ["A"; "B"];
       rows := [(0%Z, [SInt 1; SStr "x"]); (1%Z, [SInt 1; SStr "y"]);
                (2%Z, [SInt 4; SStr "y"]); (3%Z, [SInt 4; SStr "y"])] |} /\
  iat (fst (fill_missing_values empty_state table_gaps "bfill" SNull)) 1 1 = SStr "y".
Proof.
  split; [reflexivity |].
  refine (proj1 (proj2 (proj2 (proj2
    (fill_missing_values_bfill empty_state table_gaps SNull 1 1 _ _)))) 3 _ _ _ _).
  - simpl; lia.
  - unfold len; simpl; lia.
  - lia.
  - unfold len; simpl; lia.
  - reflexivity.
  - intros m H1 H2. assert (m = 1 \/ m = 2) as [-> | ->] by lia; reflexivity.
Defined.

(** ** Filling twice *)

Lemma ffill_from_idempotent (col : list scalar) :
  forall last, ffill_from last (ffill_from last col) = ffill_from last col.
Proof.
  induction col as [| v col IH]; intros last; simpl; [reflexivity |].
  destruct (isna v) eqn:Hv.
  - destruct (isna last); now rewrite IH.
  - rewrite Hv. now rewrite IH.
Qed.

Lemma map_columns_column (f : list scalar -> list scalar) (df : DataFrame) (k : nat) :
  (forall col, List.length (f col) = List.length col) ->
  k < List.length (columns df) ->
  map (cell k) (rows (map_columns f df)) = f (map (cell k) (rows df)).
Proof.
  intros Hf Hk.
  assert (List.length (rows (map_columns f df)) = len df) as Hrows.
  { rewrite <- (length_map fst), map_columns_labels. unfold len. apply length_map. }
  apply (nth_ext _ _ SNull SNull).
  - rewrite length_map, Hrows, Hf, length_map. reflexivity.
  - intros i Hi. rewrite length_map, Hrows in Hi.
    rewrite iat_column. now apply map_columns_iat.
Qed.

Lemma map_columns_idempotent (f : list scalar -> list scalar) (df : DataFrame) :
  (forall col, List.length (f col) = List.length col) ->
  (forall col, f (f col) = f col) ->
  map_columns f (map_columns f df) = map_columns f df.
Proof.
  intros Hlen Hidem.
  assert (len (map_columns f df) = len df) as Hrows.
  { unfold len at 1. rewrite <- (length_map fst), map_columns_labels.
    unfold len. apply length_map. }
  unfold map_columns at 1.
  rewrite Hrows, map_columns_labels.
  change (columns (map_columns f df)) with (columns df).
  unfold map_columns at 2. f_equal.
  apply map_ext. intros ir. f_equal. f_equal.
  apply map_ext_in. intros k Hk. apply in_seq in Hk.
  rewrite map_columns_column by (auto || lia). apply Hidem.
Qed.

(** X9. Forward filling a table that has been forward filled changes
    nothing, and so does backward filling one that has been backward
    filled. *)
Theorem fill_missing_values_twice :
  forall (s s' : State) (df : DataFrame) (value value' : scalar) (method : string),
    method = "ffill" \/ method = "bfill" ->
    fst (fill_missing_values s' (fst (fill_missing_values s df method value)) method value')
    = fst (fill_missing_values s df method value).
Proof.
  intros s s' df value value' method [-> | ->];
    unfold fill_missing_values, fill_missing_values_body, fillna_method; simpl;
    apply map_columns_idempotent.
  - intros col. apply ffill_from_length.
  - intros col. apply ffill_from_idempotent.
  - intros col. unfold bfill_column, ffill_column.
    now rewrite length_rev, ffill_from_length, length_rev.
  - intros col. unfold bfill_column, ffill_column.
    now rewrite rev_involutive, ffill_from_idempotent.
Qed.

Lemma fill_missing_values_twice_witness :
  fst (fill_missing_values empty_state
         (fst (fill_missing_values empty_state table_gaps "bfill" SNull)) "bfill" SNull)
  = fst (fill_missing_values empty_state table_gaps "bfill" SNull).
Proof.
  exact (fill_missing_values_twice empty_state empty_state table_gaps SNull SNull "bfill"
           (or_intror eq_refl)).
Defined.

(** ** sort_data: the failures *)

(** X10. Sorting by a column the table does not have, or by a column whose
    values mix numbers and strings, returns the input table, shows the
    error and logs nothing, whatever sort is run. *)
Theorem sort_data_failure_returns_input :
  forall (argsort : argsort_fn) (s : State) (df : DataFrame) (column : string)
         (ascending : bool),
    (get_loc column (columns df) = None ->
     sort_data argsort s df column ascending =
       (df, {| log := log s;
               page := page s ++
                       [st_error "Error sorting data: " (Some (KeyError (SStr column)))] |})) /\
    (forall k, get_loc column (columns df) = Some k ->
       comparable_keys (filter notna (map (cell k) (rows df))) = false ->
       sort_data argsort s df column ascending =
         (df, {| log := log s;
                 page := page s ++ [st_error "Error sorting data: " (Some TypeError)] |})).
Proof.
  intros argsort s df column ascending. split.
  - intros H. unfold sort_data, sort_values, getitem. now rewrite H.
  - intros k Hk Hcmp. unfold sort_data, sort_values, getitem.
    rewrite Hk. simpl. now rewrite Hcmp.
Qed.

(** ** rename_columns *)

Lemma dict_get_In (m : list (string * string)) (c n : string) :
  dict_get m c = Some n -> In (c, n) m.
Proof.
  induction m as [| [old new] m IH]; simpl; [discriminate |].
  destruct (String.eqb c old) eqn:E.
  - apply String.eqb_eq in E. subst. intros H. injection H as ->. now left.
  - intros H. right. now apply IH.
Qed.

Lemma dict_get_inverse (m : list (string * string)) (c n : string) :
  NoDup (map snd m) -> In (c, n) m -> dict_get (inverse_mapping m) n = Some c.
Proof.
  induction m as [| [old new] m IH]; simpl; intros Hnd Hin; [destruct Hin |].
  inversion Hnd as [| x l Hnotin Hnd']; subst.
  destruct Hin as [Heq | Hin].
  - injection Heq as -> ->. now rewrite String.eqb_refl.
  - destruct (String.eqb n new) eqn:E.
    + apply String.eqb_eq in E. subst. exfalso. apply Hnotin.
      apply in_map_iff. now exists (c, new).
    + now apply IH.
Qed.

Lemma dict_get_not_value (m : list (string * string)) (c : string) :
  ~ In c (map fst m) -> dict_get m c = None.
Proof.
  induction m as [| [old new] m IH]; simpl; intros H; [reflexivity |].
  destruct (String.eqb c old) eqn:E.
  - apply String.eqb_eq in E. subst. exfalso. apply H. now left.
  - apply IH. intros Hin. apply H. now right.
Qed.

(** X11. Renaming and renaming back gives the table back, when no two old
    names take the same new name and no column that keeps its name is one
    of the new names.  The rows are never touched. *)
Theorem rename_columns_round_trip :
  forall (s s' : State) (df : DataFrame) (column_mapping : list (string * string)),
    NoDup (map snd column_mapping) ->
    (forall c, In c (columns df) -> dict_get column_mapping c = None ->
               ~ In c (map snd column_mapping)) ->
    let renamed_df := fst (rename_columns s df column_mapping) in
    rows renamed_df = rows df /\
    fst (rename_columns s' renamed_df (inverse_mapping column_mapping)) = df.
Proof.
  intros s s' df m Hnd Hfresh renamed_df. subst renamed_df.
  unfold rename_columns, rename. simpl. split; [reflexivity |].
  destruct df as [cols rs]. simpl in *. f_equal.
  rewrite map_map. rewrite <- (map_id cols) at 2.
  apply map_ext_in. intros c Hc. unfold renamed.
  destruct (dict_get m c) as [n |] eqn:Hget.
  - apply dict_get_In in Hget. now rewrite (dict_get_inverse m c n Hnd Hget).
  - rewrite dict_get_not_value; [reflexivity |].
    unfold inverse_mapping. rewrite map_map. simpl. now apply Hfresh.
Qed.

Lemma rename_columns_round_trip_witness :
  fst (rename_columns empty_state
         (fst (rename_columns empty_state table_AB [("A", "Amount"); ("C", "Code")]))
         (inverse_mapping [("A", "Amount"); ("C", "Code")])) = table_AB.
Proof.
  refine (proj2 (rename_columns_round_trip empty_state empty_state table_AB
                   [("A", "Amount"); ("C", "Code")] _ _)).
  - simpl. repeat constructor; simpl; intuition discriminate.
  - intros c Hc Hget Hin. simpl in Hc, Hin.
    destruct Hc as [<- | [<- | []]]; [discriminate Hget |].
    destruct Hin as [H | [H | []]]; discriminate H.
Defined.

(** X12. A mapping none of whose old names is a column of the table
    renames nothing and raises nothing: the table comes back as it is and
    the call is still logged. *)
Theorem rename_columns_unknown_names_ignored :
  forall (s : State) (df : DataFrame) (column_mapping : list (string * string)),
    (forall c, In c (columns df) -> ~ In c (map fst column_mapping)) ->
    fst (rename_columns s df column_mapping) = df /\
    page (snd (rename_columns s df column_mapping)) = page s /\
    List.length (log (snd (rename_columns s df column_mapping))) = S (List.length (log s)).
Proof.
  intros s df m H. unfold rename_columns, rename. simpl.
  split; [| split; [reflexivity | rewrite length_app; simpl; lia]].
  destruct df as [cols rs]. simpl in *. f_equal.
  rewrite <- (map_id cols) at 2. apply map_ext_in. intros c Hc.
  unfold renamed. now rewrite dict_get_not_value by (now apply H).
Qed.

Lemma rename_columns_unknown_names_ignored_witness :
  fst (rename_columns empty_state table_A [("B", "C")]) = table_A.
Proof.
  refine (proj1 (rename_columns_unknown_names_ignored empty_state table_A [("B", "C")] _)).
  intros c [<- | []] [H | []]. discriminate H.
Defined.

(** ** add_or_delete_rows *)

Lemma range_index_length {A : Type} (l : list A) :
  List.length (range_index l) = List.length l.
Proof.
  unfold range_index. rewrite length_combine, length_map, length_seq. lia.
Qed.

Lemma range_index_labels {A : Type} (l : list A) :
  map fst (range_index l) = map Z.of_nat (seq 0 (List.length l)).
Proof.
  unfold range_index. generalize 0 as start.
  induction l as [| a l IH]; intros start; simpl; [reflexivity |].
  f_equal. apply IH.
Qed.

(** X13. On a table whose rows are labelled 0, 1, 2, ... in order, as a
    file just read, a single deletion with an index in range removes
    exactly the row at that position, and the call is logged. *)
Theorem delete_in_range_on_fresh_table :
  forall (s : State) (cols : list string) (cells : list (list scalar)) (n : nat),
    n < List.length cells ->
    let df := {| columns := cols; rows := range_index cells |} in
    fst (add_or_delete_rows s df [op_delete (Some (Z.of_nat n))]) =
      {| columns := cols; rows := delete_position n (range_index cells) |} /\
    page (snd (add_or_delete_rows s df [op_delete (Some (Z.of_nat n))])) = page s /\
    len (fst (add_or_delete_rows s df [op_delete (Some (Z.of_nat n))])) + 1
      = List.length cells.
Proof.
  intros s cols cells n Hn df. subst df.
  unfold add_or_delete_rows. cbn [add_or_delete_rows_loop].
  rewrite (delete_on_range_index cols cells n Hn). cbv beta iota.
  split; [reflexivity |]. split; [reflexivity |].
  unfold len, delete_position. cbn [fst rows].
  rewrite length_app, length_firstn, length_skipn, range_index_length. lia.
Qed.

Lemma delete_in_range_on_fresh_table_witness :
  fst (add_or_delete_rows empty_state
         {| columns := ["A"]; rows := range_index [[SInt 5]; [SInt 15]; [SInt 25]] |}
         [op_delete (Some (Z.of_nat 1))]) =
  {| columns := ["A"]; rows := [(0%Z, [SInt 5]); (2%Z, [SInt 25])] |}.
Proof.
  rewrite (proj1 (delete_in_range_on_fresh_table empty_state ["A"]
                    [[SInt 5]; [SInt 15]; [SInt 25]] 1 ltac:(simpl; lia))).
  reflexivity.
Defined.

(** X14. A deletion without an index, or with an index below 0 or not
    below the number of rows, changes no table and raises nothing; the
    call is logged as if it had been carried out. *)
Theorem delete_out_of_range_is_skipped :
  forall (s : State) (df : DataFrame) (index : option Z),
    (forall i, index = Some i -> (i < 0 \/ Z.of_nat (len df) <= i)%Z) ->
    fst (add_or_delete_rows s df [op_delete index]) = df /\
    page (snd (add_or_delete_rows s df [op_delete index])) = page s /\
    List.length (log (snd (add_or_delete_rows s df [op_delete index])))
      = S (List.length (log s)).
Proof.
  intros s df index H. unfold add_or_delete_rows. cbn [add_or_delete_rows_loop].
  rewrite (delete_out_of_range_skipped df index H). simpl.
  split; [reflexivity |]. split; [reflexivity |].
  rewrite length_app. simpl. lia.
Qed.

Lemma delete_out_of_range_is_skipped_witness :
  fst (add_or_delete_rows empty_state table_A [op_delete (Some 3%Z)]) = table_A /\
  fst (add_or_delete_rows empty_state table_A [op_delete (Some (-1)%Z)]) = table_A /\
  fst (add_or_delete_rows empty_state table_A [op_delete None]) = table_A.
Proof.
  split; [| split].
  - refine (proj1 (delete_out_of_range_is_skipped empty_state table_A (Some 3%Z) _)).
    intros i H. injection H as <-. right. unfold len. simpl. lia.
  - refine (proj1 (delete_out_of_range_is_skipped empty_state table_A (Some (-1)%Z) _)).
    intros i H. injection H as <-. left. lia.
  - refine (proj1 (delete_out_of_range_is_skipped empty_state table_A None _)).
    intros i H. discriminate H.
Defined.

(** ** add_or_delete_rows: adding a row *)

Lemma get_loc_Some (c : string) (cols : list string) :
  forall k, get_loc c cols = Some k -> k < List.length cols /\ nth k cols "" = c.
Proof.
  induction cols as [| c' cols IH]; simpl; intros k H; [discriminate |].
  destruct (String.eqb c c') eqn:E.
  - injection H as <-. apply String.eqb_eq in E. split; [lia | now subst].
  - destruct (get_loc c cols) as [j |]; [| discriminate].
    injection H as <-. destruct (IH j eq_refl) as [Hj Hn]. split; [lia | exact Hn].
Qed.

Lemma get_loc_None (c : string) (cols : list string) :
  get_loc c cols = None -> ~ In c cols.
Proof.
  induction cols as [| c' cols IH]; simpl; intros H; [tauto |].
  destruct (String.eqb c c') eqn:E; [discriminate |].
  apply String.eqb_neq in E.
  destruct (get_loc c cols); [discriminate |].
  intros [Heq | Hin]; [now subst | now apply IH].
Qed.

Lemma get_loc_In (c : string) (cols : list string) :
  In c cols -> exists k, get_loc c cols = Some k.
Proof.
  intros Hin. destruct (get_loc c cols) as [k |] eqn:E; [now exists k |].
  now apply get_loc_None in E.
Qed.

Lemma get_loc_nth (cols : list string) :
  NoDup cols -> forall k, k < List.length cols -> get_loc (nth k cols "") cols = Some k.
Proof.
  induction 1 as [| c cols Hnotin Hnd IH]; intros k Hk; simpl in *; [lia |].
  destruct k as [| k]; [now rewrite String.eqb_refl |].
  destruct (String.eqb (nth k cols "") c) eqn:E.
  - apply String.eqb_eq in E. exfalso. apply Hnotin. rewrite <- E. apply nth_In. lia.
  - rewrite IH by lia. reflexivity.
Qed.

Lemma reindex_cells_nth (from to : list string) (cells : list scalar) (k : nat) :
  k < List.length to ->
  nth k (reindex_cells from to cells) SNull =
  match get_loc (nth k to "") from with
  | Some j => nth j cells SNull
  | None => SNull
  end.
Proof.
  intros Hk. unfold reindex_cells.
  set (g := fun c => match get_loc c from with
                     | Some j => nth j cells SNull
                     | None => SNull
                     end).
  rewrite (nth_indep (map g to) SNull (g "")) by (now rewrite length_map).
  apply (map_nth g).
Qed.

Lemma range_index_nth {A : Type} (l : list A) (d : A) (i : nat) :
  i < List.length l -> nth i (range_index l) (0%Z, d) = (Z.of_nat i, nth i l d).
Proof.
  intros Hi. unfold range_index.
  rewrite combine_nth by (now rewrite length_map, length_seq).
  f_equal. change 0%Z with (Z.of_nat 0).
  rewrite (map_nth Z.of_nat). now rewrite seq_nth.
Qed.

(** X15. On a table with distinct column names, for a row whose names are
    distinct, and with integers that a float holds exactly: adding the row
    appends exactly one row and labels the rows 0, 1, 2, ... again; the
    columns of the table stay in front, followed by the new names of the
    row; every row that was there keeps its cells in those columns and is
    null in the new ones; the new row is null in every column its data does
    not name, and holds the value of its data in every column it names. *)
Theorem add_row_appends :
  forall (s : State) (df : DataFrame) (row_data : list (string * scalar)),
    NoDup (columns df) ->
    NoDup (map fst row_data) ->
    cells_fit_float64 df = true ->
    forallb fits_float64 (map snd row_data) = true ->
    let added := fst (add_or_delete_rows s df [op_add row_data]) in
    len added = S (len df) /\
    map fst (rows added) = map Z.of_nat (seq 0 (S (len df))) /\
    (exists extra, columns added = columns df ++ extra /\
                   forall c, In c extra <-> In c (map fst row_data) /\ ~ In c (columns df)) /\
    (forall i k, i < len df -> k < List.length (columns df) ->
                 iat added i k = iat df i k) /\
    (forall i k, i < len df -> List.length (columns df) <= k -> iat added i k = SNull) /\
    (forall c k, get_loc c (columns added) = Some k ->
                 ~ In c (map fst row_data) -> iat added (len df) k = SNull) /\
    (forall c k j, get_loc c (columns added) = Some k ->
                   get_loc c (map fst row_data) = Some j ->
                   iat added (len df) k = nth j (map snd row_data) SNull).
Proof.
  intros s df row_data Hnd _ _ _ added. subst added.
  unfold add_or_delete_rows. cbn [add_or_delete_rows_loop apply_operation fst].
  unfold concat_ignore_index. cbn [columns rows DataFrame_of_record map].
  change (snd (0%Z, map snd row_data)) with (map snd row_data).
  set (extra := filter (fun c => match get_loc c (columns df) with
                                 | Some _ => false
                                 | None => true
                                 end) (map fst row_data)).
  set (cols := columns df ++ extra).
  set (old := map (fun r => reindex_cells (columns df) cols (snd r)) (rows df)).
  set (new := reindex_cells (map fst row_data) cols (map snd row_data)).
  assert (List.length old = len df) as Hold by (unfold old, len; apply length_map).
  assert (List.length (old ++ [new]) = S (len df)) as Hlen
    by (rewrite length_app, Hold; simpl; lia).
  assert (forall c, In c extra <-> In c (map fst row_data) /\ ~ In c (columns df)) as Hextra.
  { intros c. unfold extra. rewrite filter_In. split; intros [H1 H2]; split; auto.
    - destruct (get_loc c (columns df)) eqn:E; [discriminate |]. now apply get_loc_None.
    - destruct (get_loc c (columns df)) as [k |] eqn:E; [| reflexivity].
      apply get_loc_Some in E. destruct E as [Hk <-]. exfalso. apply H2. now apply nth_In. }
  unfold len at 1. cbn [rows].
  split; [now rewrite range_index_length |].
  split; [now rewrite range_index_labels, Hlen |].
  split; [exists extra; split; [reflexivity | exact Hextra] |].
  assert (forall i, i < len df ->
            nth i (range_index (old ++ [new])) (0%Z, [])
            = (Z.of_nat i, reindex_cells (columns df) cols (snd (nth i (rows df) (0%Z, [])))))
    as Hrow.
  { intros i Hi. rewrite range_index_nth by lia. f_equal.
    rewrite app_nth1 by lia. unfold old.
    rewrite (nth_indep _ [] (reindex_cells (columns df) cols (snd (0%Z, @nil scalar))))
      by (rewrite length_map; exact Hi).
    apply (map_nth (fun r => reindex_cells (columns df) cols (snd r))). }
  split; [| split; [| split]].
  - intros i k Hi Hk. unfold iat, cell. cbn [rows]. rewrite Hrow by exact Hi.
    cbn [snd]. rewrite reindex_cells_nth by (unfold cols; rewrite length_app; lia).
    unfold cols. rewrite app_nth1 by exact Hk.
    now rewrite get_loc_nth.
  - intros i k Hi Hk. unfold iat, cell. cbn [rows]. rewrite Hrow by exact Hi.
    cbn [snd].
    destruct (Nat.lt_ge_cases k (List.length cols)) as [Hin | Hout].
    + rewrite reindex_cells_nth by exact Hin.
      destruct (get_loc (nth k cols "") (columns df)) as [j |] eqn:E; [| reflexivity].
      exfalso. apply get_loc_Some in E. destruct E as [Hj Hc].
      unfold cols in Hc, Hin. rewrite length_app in Hin.
      rewrite app_nth2 in Hc by lia.
      assert (In (nth (k - List.length (columns df)) extra "") extra) as Hx
        by (apply nth_In; lia).
      apply Hextra in Hx. destruct Hx as [_ Hx]. apply Hx.
      rewrite <- Hc. apply nth_In. exact Hj.
    + apply nth_overflow. unfold reindex_cells. now rewrite length_map.
  - intros c k Hloc Hc. unfold iat, cell. cbn [rows].
    rewrite range_index_nth by lia. cbn [snd].
    rewrite app_nth2 by lia. rewrite Hold, Nat.sub_diag. cbn [nth].
    apply get_loc_Some in Hloc. cbn [columns] in Hloc. fold cols in Hloc.
    destruct Hloc as [Hk Hnth].
    unfold new. rewrite reindex_cells_nth by exact Hk. rewrite Hnth.
    destruct (get_loc c (map fst row_data)) as [j |] eqn:E; [| reflexivity].
    exfalso. apply Hc. apply get_loc_Some in E. destruct E as [Hj <-]. now apply nth_In.
  - intros c k j Hloc Hj. unfold iat, cell. cbn [rows].
    rewrite range_index_nth by lia. cbn [snd].
    rewrite app_nth2 by lia. rewrite Hold, Nat.sub_diag. cbn [nth].
    apply get_loc_Some in Hloc. cbn [columns] in Hloc. fold cols in Hloc.
    destruct Hloc as [Hk Hnth].
    unfold new. rewrite reindex_cells_nth by exact Hk. rewrite Hnth.
    now rewrite Hj.
Qed.

Lemma add_row_appends_witness :
  NoDup (columns table_AB) /\
  NoDup (map fst [("B", SStr "z"); ("C", SInt 7)]) /\
  cells_fit_float64 table_AB = true /\
  fst (add_or_delete_rows empty_state table_AB [op_add [("B", SStr "z"); ("C", SInt 7)]]) =
    {| columns := ["A"; "B"; "C"];
       rows := [(0%Z, [SInt 1; SStr "x"; SNull]); (1%Z, [SInt 1; SStr "x"; SNull]);
                (2%Z, [SInt 2; SStr "y"; SNull]); (3%Z, [SNull; SStr "z"; SInt 7])] |} /\
  len (fst (add_or_delete_rows empty_state table_AB
              [op_add [("B", SStr "z"); ("C", SInt 7)]])) = 4.
Proof.
  assert (NoDup (map fst [("B", SStr "z"); ("C", SInt 7)])) as Hkeys
    by (simpl; repeat constructor; simpl; intuition discriminate).
  split; [exact table_AB_columns |]. split; [exact Hkeys |].
  split; [reflexivity |]. split; [reflexivity |].
  exact (proj1 (add_row_appends empty_state table_AB
                  [("B", SStr "z"); ("C", SInt 7)] table_AB_columns Hkeys
                  eq_refl eq_refl)).
Defined.

(** X16. On a table with distinct column names, for a row whose names are
    distinct, and with integers that a float holds exactly: inside one
    batch, a deletion that follows an addition goes by position.  The
    addition has labelled the rows 0, 1, 2, ... again, so an index up to
    the old row count removes the row at that position of the table with
    the new row. *)
Theorem add_then_delete_by_position :
  forall (s : State) (df : DataFrame) (row_data : list (string * scalar)) (n : nat),
    NoDup (columns df) ->
    NoDup (map fst row_data) ->
    cells_fit_float64 df = true ->
    forallb fits_float64 (map snd row_data) = true ->
    n <= len df ->
    let added := concat_ignore_index df (DataFrame_of_record row_data) in
    fst (add_or_delete_rows s df [op_add row_data; op_delete (Some (Z.of_nat n))]) =
      {| columns := columns added; rows := delete_position n (rows added) |} /\
    page (snd (add_or_delete_rows s df [op_add row_data; op_delete (Some (Z.of_nat n))]))
      = page s.
Proof.
  intros s df row_data n _ _ _ _ Hn added. subst added.
  assert (add_or_delete_rows_loop df [op_add row_data; op_delete (Some (Z.of_nat n))]
          = ({| columns := columns (concat_ignore_index df (DataFrame_of_record row_data));
                rows := delete_position n
                          (rows (concat_ignore_index df (DataFrame_of_record row_data))) |},
             None)) as Hloop.
  { cbn [add_or_delete_rows_loop].
    change (apply_operation df (op_add row_data))
      with (Ok (concat_ignore_index df (DataFrame_of_record row_data))).
    cbv beta iota.
    unfold concat_ignore_index. cbn [columns rows DataFrame_of_record map].
    rewrite delete_on_range_index; [reflexivity |].
    rewrite length_app, length_map. unfold len in Hn. simpl. lia. }
  unfold add_or_delete_rows. rewrite Hloop. split; reflexivity.
Qed.

Lemma add_then_delete_by_position_witness :
  fst (add_or_delete_rows empty_state table_A
         [op_add [("A", SInt 99)]; op_delete (Some (Z.of_nat 3))]) = table_A.
Proof.
  rewrite (proj1 (add_then_delete_by_position empty_state table_A [("A", SInt 99)] 3
                    table_A_columns
                    ltac:(simpl; repeat constructor; simpl; tauto)
                    eq_refl eq_refl
                    ltac:(unfold len; simpl; lia))).
  reflexivity.
Defined.

(** ** add_or_delete_rows: the only failure *)

(** X17. On a table with distinct column names, an operation of one of
    the documented shapes raises in one case, and in that case always: a
    deletion whose index is within [0 <= i < len(df)] while no row carries
    the label [i]; the exception is then the [KeyError] of that label.
    Additions, deletions out of range or without index, and other actions
    do not raise. *)
Theorem apply_operation_raises_only_on_missing_label :
  forall (df : DataFrame) (operation : Operation) (e : exn),
    NoDup (columns df) ->
    (apply_operation df operation = Raise e <->
     exists i,
       operation = op_delete (Some i) /\
       e = KeyError (SInt i) /\
       (0 <= i < Z.of_nat (len df))%Z /\
       (forall r, In r (rows df) -> fst r <> i)).
Proof.
  intros df operation e _. split.
  - intros H.
    destruct operation as [row_data | [i |] | name]; simpl in H; try discriminate.
    destruct ((0 <=? i)%Z && (i <? Z.of_nat (len df))%Z) eqn:Hrange; [| discriminate].
    apply andb_true_iff in Hrange. destruct Hrange as [H0 H1].
    apply Z.leb_le in H0. apply Z.ltb_lt in H1.
    unfold drop in H.
    destruct (existsb (fun r => (fst r =? i)%Z) (rows df)) eqn:Hex; [discriminate |].
    injection H as <-. exists i. repeat split; auto.
    intros r Hr Heq.
    assert (existsb (fun r => (fst r =? i)%Z) (rows df) = true) as Ht
      by (apply existsb_exists; exists r; split; [exact Hr | now apply Z.eqb_eq]).
    congruence.
  - intros [i [-> [-> [[H0 H1] Hnone]]]]. simpl.
    replace (0 <=? i)%Z with true by (symmetry; now apply Z.leb_le).
    replace (i <? Z.of_nat (len df))%Z with true by (symmetry; now apply Z.ltb_lt).
    simpl. unfold drop.
    destruct (existsb (fun r => (fst r =? i)%Z) (rows df)) eqn:Hex; [| reflexivity].
    exfalso. apply existsb_exists in Hex. destruct Hex as [r [Hr Heq]].
    apply Z.eqb_eq in Heq. exact (Hnone r Hr Heq).
Qed.

Lemma apply_operation_raises_only_on_missing_label_witness :
  exists i,
    op_delete (Some 0%Z) = op_delete (Some i) /\
    KeyError (SInt 0) = KeyError (SInt i) /\
    (0 <= i < Z.of_nat (len {| columns := ["A"]; rows := [(1%Z, [SInt 15])] |}))%Z /\
    (forall r, In r (rows {| columns := ["A"]; rows := [(1%Z, [SInt 15])] |}) -> fst r <> i).
Proof.
  refine (proj1 (apply_operation_raises_only_on_missing_label
                   {| columns := ["A"]; rows := [(1%Z, [SInt 15])] |}
                   (op_delete (Some 0%Z)) (KeyError (SInt 0)) _) eq_refl).
  simpl. repeat constructor. simpl. tauto.
Defined.

(** ** add_or_delete_rows: distinct labels *)

Lemma filter_label_unique (rs : list (Z * list scalar)) (i : Z) :
  NoDup (map fst rs) ->
  existsb (fun r => (fst r =? i)%Z) rs = true ->
  S (List.length (filter (fun r => negb (fst r =? i)%Z) rs)) = List.length rs.
Proof.
  induction rs as [| r rs IH]; simpl; intros Hnd Hex; [discriminate |].
  inversion Hnd as [| x l Hnotin Hnd']; subst.
  destruct (fst r =? i)%Z eqn:E; simpl.
  - f_equal. apply Z.eqb_eq in E.
    rewrite filter_all; [reflexivity |].
    apply forallb_forall. intros r' Hr'. apply negb_true_iff. apply Z.eqb_neq.
    intros Heq. apply Hnotin. apply in_map_iff. exists r'. split; [congruence | exact Hr'].
  - f_equal. now apply IH.
Qed.

(** Rows picked out of rows with distinct labels have distinct labels. *)
Lemma distinct_labels_filter (keep : Z * list scalar -> bool) (rs : list (Z * list scalar)) :
  NoDup (map fst rs) -> NoDup (map fst (filter keep rs)).
Proof.
  induction rs as [| r rs IH]; simpl; intros Hnd; [constructor |].
  inversion Hnd as [| label labels Hfresh Hrest]; subst.
  destruct (keep r); simpl; [| now apply IH].
  constructor; [| now apply IH].
  intros Hin. apply Hfresh. apply in_map_iff in Hin. destruct Hin as [r' [Hlabel Hin]].
  apply in_map_iff. exists r'. split; [exact Hlabel |]. apply filter_In in Hin. tauto.
Qed.

Lemma range_labels_NoDup (n start : nat) : NoDup (map Z.of_nat (seq start n)).
Proof.
  revert start. induction n as [| n IH]; intros start; simpl; constructor; [| apply IH].
  intros Hin. apply in_map_iff in Hin. destruct Hin as [m [Hm Hin]].
  apply in_seq in Hin. lia.
Qed.

Lemma apply_operation_labels (df df' : DataFrame) (operation : Operation) :
  NoDup (map fst (rows df)) -> apply_operation df operation = Ok df' ->
  NoDup (map fst (rows df')).
Proof.
  intros Hnd H.
  destruct operation as [row_data | [i |] | name]; simpl in H.
  - injection H as <-. unfold concat_ignore_index. cbn [rows].
    rewrite range_index_labels. apply range_labels_NoDup.
  - destruct ((0 <=? i)%Z && (i <? Z.of_nat (len df))%Z); [| now injection H as <-].
    unfold drop in H. destruct (existsb _ _); [| discriminate].
    injection H as <-. cbn [rows]. now apply distinct_labels_filter.
  - now injection H as <-.
  - now injection H as <-.
Qed.

(** X18. Distinct row labels stay distinct through a whole batch, also
    one that ends in an error; and on a table with distinct labels a
    deletion that is carried out removes exactly one row. *)
Theorem operations_keep_labels_distinct :
  forall (df : DataFrame) (operations : list Operation),
    NoDup (map fst (rows df)) ->
    NoDup (map fst (rows (fst (add_or_delete_rows_loop df operations)))) /\
    (forall i df', (0 <= i < Z.of_nat (len df))%Z ->
                   apply_operation df (op_delete (Some i)) = Ok df' ->
                   S (len df') = len df).
Proof.
  intros df operations Hnd. split.
  - revert df Hnd. induction operations as [| operation operations IH];
      intros df Hnd; simpl; [exact Hnd |].
    destruct (apply_operation df operation) as [df1 |] eqn:H1; [| exact Hnd].
    apply IH. now apply (apply_operation_labels df df1 operation).
  - intros i df' [H0 H1] H. simpl in H.
    replace (0 <=? i)%Z with true in H by (symmetry; now apply Z.leb_le).
    replace (i <? Z.of_nat (len df))%Z with true in H by (symmetry; now apply Z.ltb_lt).
    simpl in H. unfold drop in H.
    destruct (existsb (fun r => (fst r =? i)%Z) (rows df)) eqn:Hex; [| discriminate].
    injection H as <-. unfold len. cbn [rows]. now apply filter_label_unique.
Qed.

Lemma operations_keep_labels_distinct_witness :
  NoDup (map fst (rows table_A)) /\
  NoDup (map fst (rows (fst (add_or_delete_rows_loop table_A
                               [op_delete (Some 0%Z); op_delete (Some 0%Z)])))).
Proof.
  assert (NoDup (map fst (rows table_A))) as Hnd
    by (simpl; repeat constructor; simpl; intuition discriminate).
  split; [exact Hnd |].
  exact (proj1 (operations_keep_labels_distinct table_A
                  [op_delete (Some 0%Z); op_delete (Some 0%Z)] Hnd)).
Defined.

(** ** The log and the page *)

(** X19. Every operation on the table ends in one of two ways: it appends
    one entry to the log and shows nothing, or it shows one error and logs
    nothing.  Entries already logged and events already shown are never
    changed, and [save_log] returns them in the order they were logged. *)
Theorem table_operations_log_or_report :
  forall (argsort : argsort_fn) (s : State) (df : DataFrame),
    logged_or_reported s (snd (remove_duplicates s df)) /\
    (forall rules, logged_or_reported s (snd (apply_rules s df rules))) /\
    (forall operations, logged_or_reported s (snd (add_or_delete_rows s df operations))) /\
    logged_or_reported s (snd (remove_empty_rows s df)) /\
    (forall column ascending,
        logged_or_reported s (snd (sort_data argsort s df column ascending))) /\
    (forall column_mapping, logged_or_reported s (snd (rename_columns s df column_mapping))) /\
    (forall method value, logged_or_reported s (snd (fill_missing_values s df method value))) /\
    (forall s', logged_or_reported s s' ->
                exists entries, save_log s' = save_log s ++ entries).
Proof.
  intros argsort s df. unfold logged_or_reported.
  repeat split.
  - left. eexists. reflexivity.
  - intros rules. unfold apply_rules.
    destruct (apply_rules_loop df rules) as [df' [e |]];
      [right | left]; repeat eexists; reflexivity.
  - intros operations. unfold add_or_delete_rows.
    destruct (add_or_delete_rows_loop df operations) as [df' [e |]];
      [right | left]; repeat eexists; reflexivity.
  - left. eexists. reflexivity.
  - intros column ascending. unfold sort_data.
    destruct (sort_values argsort df column ascending);
      [left | right]; repeat eexists; reflexivity.
  - intros column_mapping. left. eexists. reflexivity.
  - intros method value. unfold fill_missing_values.
    destruct (fill_missing_values_body df method value);
      [left | right]; repeat eexists; reflexivity.
  - intros s' [[entry ->] | [prefix [e ->]]]; unfold save_log; simpl.
    + now exists [entry].
    + exists []. now rewrite app_nil_r.
Qed.

(** ** Charts *)

(** X20. With a plotting backend whose calls return, a chart requested
    from the page is always logged and never ends in the error of the
    handler: the chart type is one of the three, the x column is a column
    of the table and the y choice is ["None"] or a column, so no column
    lookup can fail.  The figure is rendered; the message of the invalid
    combination is shown before it exactly for a line chart without a y
    column. *)
Theorem main_create_chart_logged_unless_drawing_raises :
  forall (backend : backend_fn) (s : State) (df : DataFrame)
         (chart_type x_column y_choice : string),
    (forall c, backend c = Ok tt) ->
    chart_type = "Bar Chart" \/ chart_type = "Line Chart" \/ chart_type = "Pie Chart" ->
    In x_column (columns df) ->
    y_choice = "None" \/ In y_choice (columns df) ->
    let y_column :=
      if String.eqb chart_type "Bar Chart" || String.eqb chart_type "Line Chart"
      then (if String.eqb y_choice "None" then None else Some y_choice)
      else None in
    log (main_create_chart backend s df chart_type x_column y_choice)
      = log s ++ [chart_entry chart_type x_column y_column] /\
    exists figure,
      page (main_create_chart backend s df chart_type x_column y_choice)
        = page s
          ++ (if String.eqb chart_type "Line Chart" && negb (truthy y_column)
              then [st_error "Invalid chart type or missing column(s). Please check your inputs." None]
              else [])
          ++ [st_pyplot figure].
Proof.
  intros backend s df chart_type x_column y_choice Hback Htype Hx Hy y_column.
  subst y_column.
  destruct (get_loc_In x_column (columns df) Hx) as [kx Hkx].
  assert (forall y, y_choice = y -> String.eqb y "None" = false ->
                    exists ky, get_loc y (columns df) = Some ky) as Hky.
  { intros y <- Hnone. destruct Hy as [-> | Hy]; [discriminate | now apply get_loc_In]. }
  unfold main_create_chart, create_chart, create_chart_body, chart_entry, then_,
    plt_figure, plt, lift, st_errorC, st_pyplotC, log_actionC, getitem.
  rewrite Hkx.
  destruct Htype as [-> | [-> | ->]]; simpl.
  - destruct (String.eqb y_choice "None") eqn:Hnone; simpl.
    + rewrite !Hback. simpl. split; [reflexivity | eexists; reflexivity].
    + destruct (Hky y_choice eq_refl Hnone) as [ky ->].
      destruct (negb (String.eqb y_choice "")); simpl;
        rewrite !Hback; simpl; (split; [reflexivity | eexists; reflexivity]).
  - destruct (String.eqb y_choice "None") eqn:Hnone; simpl.
    + split; [reflexivity |]. exists []. now rewrite <- app_assoc.
    + destruct (Hky y_choice eq_refl Hnone) as [ky ->].
      destruct (negb (String.eqb y_choice "")); simpl.
      * rewrite !Hback. simpl. split; [reflexivity | eexists; reflexivity].
      * split; [reflexivity |]. exists []. now rewrite <- app_assoc.
  - rewrite !Hback. simpl. split; [reflexivity | eexists; reflexivity].
Qed.

Lemma main_create_chart_logged_unless_drawing_raises_witness :
  log (main_create_chart (fun _ => Ok tt) empty_state table_AB "Line Chart" "A" "None")
    = [chart_entry "Line Chart" "A" None] /\
  log (main_create_chart (fun _ => Ok tt) empty_state table_AB "Bar Chart" "A" "B")
    = [chart_entry "Bar Chart" "A" (Some "B")].
Proof.
  split.
  - refine (proj1 (main_create_chart_logged_unless_drawing_raises (fun _ => Ok tt)
                     empty_state table_AB "Line Chart" "A" "None" _ _ _ _)).
    + reflexivity.
    + right. left. reflexivity.
    + left. reflexivity.
    + left. reflexivity.
  - refine (proj1 (main_create_chart_logged_unless_drawing_raises (fun _ => Ok tt)
                     empty_state table_AB "Bar Chart" "A" "B" _ _ _ _)).
    + reflexivity.
    + left. reflexivity.
    + left. reflexivity.
    + right. right. left. reflexivity.
Defined.

(** X21. A pie chart ignores the y column: what is drawn and shown is the
    same with any y column as with none. *)
Theorem pie_chart_ignores_y_column :
  forall (backend : backend_fn) (s : State) (df : DataFrame) (x_column : string)
         (y_column : option string),
    page (create_chart backend s df "Pie Chart" x_column y_column) =
    page (create_chart backend s df "Pie Chart" x_column None).
Proof.
  intros backend s df x_column y_column.
  unfold create_chart, create_chart_body, then_, plt_figure, plt, lift,
    st_errorC, st_pyplotC, log_actionC.
  simpl. chart_cases; reflexivity.
Qed.

(** ** Filtering and cleaning commute *)

Lemma scalar_same_as_number (a b : scalar) :
  scalar_same a b = true ->
  (a = SNull /\ b = SNull) \/
  (exists s, a = SStr s /\ b = SStr s) \/
  (exists n, as_number a = Some n /\ as_number b = Some n /\
             isna a = false /\ isna b = false /\
             (forall s, a <> SStr s) /\ (forall s, b <> SStr s)).
Proof.
  destruct a as [| x | x | []], b as [| y | y | []];
    unfold scalar_same, as_number; intros H; try discriminate;
    try (left; split; reflexivity);
    try (apply String.eqb_eq in H; subst; right; left; eexists; split; reflexivity);
    try (apply Z.eqb_eq in H; subst);
    right; right; eexists; repeat split; try reflexivity; intros s Hs; discriminate Hs.
Qed.

(** Two cells that [drop_duplicates] takes for the same compare alike. *)
Lemma compare_cell_same (op : cmp_op) (a b v : scalar) :
  scalar_same a b = true -> compare_cell op a v = compare_cell op b v.
Proof.
  intros H. apply scalar_same_as_number in H.
  destruct H as [[-> ->] | [[s [-> ->]] | [n [Ha [Hb [Hna [Hnb [Hsa Hsb]]]]]]]];
    try reflexivity.
  unfold compare_cell. rewrite Hna, Hnb, Ha, Hb.
  destruct a; try (exfalso; now apply (Hsa s)); try discriminate;
    destruct b; try (exfalso; now apply (Hsb s)); try discriminate; reflexivity.
Qed.

Lemma row_same_nth (r1 : list scalar) :
  forall r2 k, row_same r1 r2 = true ->
    scalar_same (nth k r1 SNull) (nth k r2 SNull) = true.
Proof.
  induction r1 as [| a r1 IH]; intros [| b r2] k H; simpl in H; try discriminate.
  - destruct k; reflexivity.
  - apply andb_true_iff in H. destruct H as [Hab H].
    destruct k as [| k]; simpl; [exact Hab | now apply IH].
Qed.

Lemma rule_holds_same (cols : list string) (rule : Rule) (r1 r2 : Z * list scalar) :
  row_same (snd r1) (snd r2) = true ->
  rule_holds cols rule r1 = rule_holds cols rule r2.
Proof.
  intros H. unfold rule_holds, cell_passes, cell.
  destruct (rule_op rule) as [op |]; [| reflexivity].
  destruct (get_loc (column rule) cols) as [k |]; [| reflexivity].
  now rewrite (compare_cell_same op _ _ (value rule) (row_same_nth _ _ k H)).
Qed.

Lemma forallb_pointwise {A : Type} (f g : A -> bool) (l : list A) :
  (forall a, f a = g a) -> forallb f l = forallb g l.
Proof.
  intros H. induction l as [| a l IH]; simpl; [reflexivity | now rewrite H, IH].
Qed.

(** Removing duplicates before or after a test that cannot tell rows with
    the same cells apart keeps the same rows. *)
Lemma kept_from_filter (p : list scalar -> bool) :
  (forall c1 c2, row_same c1 c2 = true -> p c1 = p c2) ->
  forall rs seen,
    kept_from (filter p seen) (filter (fun r => p (snd r)) rs)
    = filter (fun r => p (snd r)) (kept_from seen rs).
Proof.
  intros Hp. unfold kept_from.
  induction rs as [| r rs IH]; intros seen; simpl; [reflexivity |].
  destruct (p (snd r)) eqn:Hr; simpl.
  - assert (existsb (row_same (snd r)) (filter p seen) = existsb (row_same (snd r)) seen)
      as Hex.
    { destruct (existsb (row_same (snd r)) seen) eqn:E.
      - apply existsb_exists in E. destruct E as [x [Hx Hsame]].
        apply existsb_exists. exists x. split; [| exact Hsame].
        apply filter_In. split; [exact Hx |]. now rewrite <- (Hp _ _ Hsame).
      - apply (existsb_incl _ seen); [| exact E].
        intros x Hx. apply filter_In in Hx. tauto. }
    rewrite Hex.
    specialize (IH (seen ++ [snd r])). rewrite filter_app in IH. simpl in IH.
    rewrite Hr in IH.
    destruct (existsb (row_same (snd r)) seen); simpl; [exact IH |].
    rewrite Hr. f_equal. exact IH.
  - specialize (IH (seen ++ [snd r])). rewrite filter_app in IH. simpl in IH.
    rewrite Hr, app_nil_r in IH.
    destruct (existsb (row_same (snd r)) seen); simpl; [exact IH |].
    rewrite Hr. exact IH.
Qed.

(** X22. On a table with distinct column names and with rules that do not
    order by a string, filtering and cleaning commute when the rules raise
    on neither table: applying the rules and then removing duplicates, or
    empty rows, gives the table that removing them first and then applying
    the rules gives. *)
Theorem apply_rules_commutes_with_cleaning :
  forall (s1 s2 s3 s4 : State) (df : DataFrame) (rules : list Rule),
    NoDup (columns df) ->
    no_string_order rules ->
    snd (apply_rules_loop df rules) = None ->
    (snd (apply_rules_loop (fst (remove_duplicates s4 df)) rules) = None ->
     fst (remove_duplicates s1 (fst (apply_rules s2 df rules)))
     = fst (apply_rules s3 (fst (remove_duplicates s4 df)) rules)) /\
    (snd (apply_rules_loop (fst (remove_empty_rows s4 df)) rules) = None ->
     fst (remove_empty_rows s1 (fst (apply_rules s2 df rules)))
     = fst (apply_rules s3 (fst (remove_empty_rows s4 df)) rules)).
Proof.
  intros s1 s2 s3 s4 df rules _ _ H. split; intros H'.
  - rewrite (apply_rules_of_loop_None s2 df rules H).
    rewrite (apply_rules_of_loop_None s3 _ rules H').
    unfold remove_duplicates, drop_duplicates, getitem_mask, duplicated, rows_passing.
    cbn [fst columns rows]. f_equal.
    set (p := fun c : list scalar =>
                forallb (fun rule => rule_holds (columns df) rule (0%Z, c)) rules).
    assert (forall r : Z * list scalar,
              forallb (fun rule => rule_holds (columns df) rule r) rules = p (snd r)) as Hp.
    { intros r. unfold p. apply forallb_pointwise. intros rule.
      apply rule_holds_same. apply row_same_refl. }
    assert (forall c1 c2, row_same c1 c2 = true -> p c1 = p c2) as Hsame.
    { intros c1 c2 Hc. unfold p. apply forallb_pointwise. intros rule.
      now apply rule_holds_same. }
    rewrite (filter_ext _ _ Hp (rows df)).
    etransitivity; [exact (kept_from_filter p Hsame (rows df) []) |].
    unfold kept_from. apply filter_ext. intros r. symmetry. apply Hp.
  - rewrite (apply_rules_of_loop_None s2 df rules H).
    rewrite (apply_rules_of_loop_None s3 _ rules H').
    unfold remove_empty_rows, dropna, rows_passing. cbn [fst columns rows].
    f_equal. rewrite !filter_filter. apply filter_ext. intros r. apply andb_comm.
Qed.

Lemma apply_rules_commutes_with_cleaning_witness :
  fst (remove_duplicates empty_state
         (fst (apply_rules empty_state table_AB [mkRule "A" "less_than" (SInt 2)])))
  = fst (apply_rules empty_state (fst (remove_duplicates empty_state table_AB))
           [mkRule "A" "less_than" (SInt 2)]).
Proof.
  exact (proj1 (apply_rules_commutes_with_cleaning empty_state empty_state empty_state
                  empty_state table_AB [mkRule "A" "less_than" (SInt 2)]
                  table_AB_columns
                  (no_string_order_numbers [mkRule "A" "less_than" (SInt 2)] eq_refl)
                  eq_refl) eq_refl).
Defined.
